(** * Telemetry aggregation core of [server.js]: a shallow embedding

    The Express handlers of [src/server.js] are embedded as functions in a
    small state-and-exception monad over a [World] that holds the store's
    tables, the trace of store calls issued so far and the counters of the
    oracles ([Env]) that stand for the external collaborators: the server
    clock ([new Date()]), the Supabase store (which may report an error to
    any call), the IP-geolocation provider and [process.env]. *)

From Stdlib Require Import ZArith String Ascii List Floats Permutation.
From stdpp Require Import base option list strings gmap sorting.

Set Warnings "-register-all,-inexact-float".
#[local] Open Scope Z_scope.
#[local] Open Scope string_scope.
#[local] Open Scope list_scope.

(* ===================================================================== *)
(** ** JavaScript values *)
(* ===================================================================== *)

(** The values that a parsed JSON body, a header map or a row can hold.
    Numbers are IEEE-754 doubles.  A [Date] is its time value in
    milliseconds, [None] for an invalid date.  An object is the list of its
    own properties in insertion order, each name at most once (the JSON
    parser has already resolved duplicates).  Strings are sequences of
    Latin-1 characters, the form in which Node delivers header values; the
    handlers only test body strings for emptiness and pass them on. *)
Inductive value : Type :=
| VUndefined
| VNull
| VBool (b : bool)
| VNum (x : float)
| VStr (s : string)
| VDate (t : option Z)
| VArr (items : list value)
| VObj (props : list (string * value)).

Module JS.

(** ToBoolean: [undefined], [null], [false], [0], [-0], [NaN] and the empty
    string are falsy; everything else, objects included, is truthy. *)
Definition truthy (v : value) : bool :=
  match v with
  | VUndefined | VNull => false
  | VBool b => b
  | VNum x => negb (PrimFloat.is_zero x || PrimFloat.is_nan x)
  | VStr s => negb (String.eqb s "")
  | VDate _ | VArr _ | VObj _ => true
  end.

(** [typeof v === 'number'] *)
Definition is_number (v : value) : bool :=
  match v with VNum _ => true | _ => false end.

(** [typeof v === 'string'] *)
Definition is_string (v : value) : bool :=
  match v with VStr _ => true | _ => false end.

(** [Array.isArray(v)] *)
Definition isArray (v : value) : bool :=
  match v with VArr _ => true | _ => false end.

(** The elements of an array. *)
Definition items (v : value) : list value :=
  match v with VArr l => l | _ => [] end.

(** [a || b] *)
Definition or (a b : value) : value := if truthy a then a else b.

(** Own-property lookup in a property list. *)
Fixpoint lookup_prop (k : string) (ps : list (string * value)) : value :=
  match ps with
  | [] => VUndefined
  | (k', v) :: ps' => if String.eqb k k' then v else lookup_prop k ps'
  end.

(** [v.k] for a [v] that is neither [undefined] nor [null], and for the
    property names the server reads (none of them is an array index,
    [length] or a member inherited from a prototype): the own property of an
    object, [undefined] on anything else. *)
Definition prop (k : string) (v : value) : value :=
  match v with
  | VObj ps => lookup_prop k ps
  | _ => VUndefined
  end.

(** Whether the object [v] has an own property named [k]. *)
Definition hasOwn (k : string) (v : value) : bool :=
  match v with
  | VObj ps => existsb (λ p, String.eqb k p.1) ps
  | _ => false
  end.

(** [v === undefined || v === null] *)
Definition nullish (v : value) : bool :=
  match v with VUndefined | VNull => true | _ => false end.

(** White space of [String.prototype.trim] among the Latin-1 characters:
    TAB, LF, VT, FF, CR, SP and NBSP. *)
Definition is_space (c : ascii) : bool :=
  match nat_of_ascii c with
  | 9%nat | 10%nat | 11%nat | 12%nat | 13%nat | 32%nat | 160%nat => true
  | _ => false
  end.

Fixpoint trimStart (s : string) : string :=
  match s with
  | String c s' => if is_space c then trimStart s' else s
  | EmptyString => EmptyString
  end.

(** Dropping trailing white space: a character is kept unless it and
    everything after it is white space. *)
Fixpoint trimEnd (s : string) : string :=
  match s with
  | EmptyString => EmptyString
  | String c s' =>
      match trimEnd s' with
      | EmptyString => if is_space c then EmptyString else String c EmptyString
      | r => String c r
      end
  end.

(** [s.trim()] *)
Definition trim (s : string) : string := trimEnd (trimStart s).

(** [s.split(sep)] for a one-character separator. *)
Fixpoint split (sep : ascii) (s : string) : list string :=
  match s with
  | EmptyString => [EmptyString]
  | String c s' =>
      if Ascii.eqb c sep then EmptyString :: split sep s'
      else match split sep s' with
           | e :: es => String c e :: es
           | [] => [String c EmptyString]
           end
  end.

End JS.

(* ===================================================================== *)
(** ** Requests and the client network resolver *)
(* ===================================================================== *)

(** [req.socket]: the peer address is a string, or [undefined] once the
    socket is gone. *)
Record Socket := { remoteAddress : option string }.

(** What a handler reads of an incoming request.  Node lower-cases header
    names; a header value is a string (or an array of strings for the few
    headers Node does not join). *)
Record Request := {
  headers : gmap string value;
  socket : option Socket;
  body : value
}.

(** [req.headers[name]] *)
Definition header (req : Request) (name : string) : value :=
  default VUndefined (headers req !! name).

(** [req.socket?.remoteAddress || null] *)
Definition peerAddress (req : Request) : option string :=
  match socket req with
  | Some sock =>
      match remoteAddress sock with
      | Some a => if JS.truthy (VStr a) then Some a else None
      | None => None
      end
  | None => None
  end.

(** [getClientIp] (server.js, lines 26-31).  The result is a string or
    [null] ([None]).  The test [xff && typeof xff === 'string'] is taken
    first; in its true branch [xff] is a string, and [split] never returns
    an empty array, so entry 0 always exists. *)
Definition getClientIp (req : Request) : option string :=
  let xff := header req "x-forwarded-for" in
  if JS.truthy xff && JS.is_string xff then
    match xff with
    | VStr s =>
        match JS.split "," s with
        | e :: _ => Some (JS.trim e)
        | [] => None
        end
    | _ => None
    end
  else peerAddress req.

(* ===================================================================== *)
(** ** The world a handler runs in *)
(* ===================================================================== *)

(** The five tables the server names in [supabase.from(...)]. *)
Inductive table : Type :=
| users | consent_logs | device_locations | call_logs | ip_locations.

#[global] Instance table_eq_dec : EqDecision table.
Proof. solve_decision. Defined.

(** A stored row: its columns and their values. *)
Definition row : Type := list (string * value).

(** A call on the store client, as the server builds it. *)
Inductive Query : Type :=
| Insert (t : table) (rows : list value)
    (** [from(t).insert(rows)] *)
| InsertSelectSingle (t : table) (rows : list value)
    (** [from(t).insert(rows).select().single()] *)
| Update (t : table) (patch : value) (col : string) (v : value)
    (** [from(t).update(patch).eq(col, v)] *)
| Select (t : table) (cols : option (list string))
         (filter : option (string * value)) (order : string) (limit : nat).
    (** [from(t).select(cols)[.eq(col, v)].order(order, {ascending:false}).limit(limit)],
        [cols = None] for ['*'] *)

(** The [{ data, error }] a store call resolves to; [error] is the
    message of the error object, [None] for [null]. *)
Record Reply := { data : value; error : option string }.

(** Result of running a piece of handler code: a value, or a thrown error
    of which only [message] is ever read. *)
Inductive outcome (A : Type) : Type :=
| Ret (a : A)
| Throw (message : string).
Arguments Ret {A} a.
Arguments Throw {A} message.

(** The external collaborators, as oracles. *)
Record Env := {
  clock : nat → Z;
    (** the k-th reading of the server clock, in milliseconds *)
  Date_parse : value → option Z;
    (** time value of [new Date(v)], [None] for an invalid date *)
  toISOString : Z → string;
  IPINFO_TOKEN : option string;
    (** [process.env.IPINFO_TOKEN] *)
  fetch_json : string → outcome value;
    (** [fetch(url)] followed by [resp.json()] *)
  store_error : nat → option string;
    (** the error, if any, that the store reports to the k-th call *)
  store_now : nat → Z
    (** the store's own clock at the k-th call *)
}.

Record World := {
  db : table → list row;
  trace : list Query;   (** store calls issued so far, oldest first *)
  reads : nat;          (** readings taken of the server clock *)
  calls : nat           (** store calls issued *)
}.

Definition M (A : Type) : Type := World → outcome A * World.

Definition ret {A} (a : A) : M A := λ w, (Ret a, w).

Definition bind {A B} (m : M A) (f : A → M B) : M B :=
  λ w, match m w with
       | (Ret a, w') => f a w'
       | (Throw e, w') => (Throw e, w')
       end.

Definition throw {A} (message : string) : M A := λ w, (Throw message, w).

(** [try { m } catch(e) { h e.message }] *)
Definition try_catch {A} (m : M A) (h : string → M A) : M A :=
  λ w, match m w with
       | (Ret a, w') => (Ret a, w')
       | (Throw e, w') => h e w'
       end.

Notation "'do' x <- m ; k" := (bind m (λ x, k))
  (at level 10, x name, m at level 100, k at level 200,
   format "'[v' 'do'  x  <-  m ; '/' k ']'").

(** [Array.prototype.map] with a callback that has effects. *)
Fixpoint mapM {A B} (f : A → M B) (l : list A) : M (list B) :=
  match l with
  | [] => ret []
  | a :: l' => do b <- f a; do bs <- mapM f l'; ret (b :: bs)
  end.

(** Reading a property [v.k], or destructuring it out of [v]: a
    [TypeError] when [v] is [undefined] or [null]. *)
Definition member (k : string) (v : value) : M value :=
  if JS.nullish v
  then throw ("Cannot read properties of undefined or null (reading '" +:+ k +:+ "')")
  else ret (JS.prop k v).

(** [for (const u of v)]: only an array is iterable among the values a
    store call resolves to. *)
Definition iterate (v : value) : M (list value) :=
  match v with
  | VArr items => ret items
  | _ => throw "users is not iterable"
  end.

(** [v?.[0]] *)
Definition first_item (v : value) : value :=
  match v with
  | VArr (x :: _) => x
  | _ => VUndefined
  end.

(* ===================================================================== *)
(** ** The store *)
(* ===================================================================== *)

Module Store.

(** The value of a column in a row. *)
Definition column (c : string) (r : row) : value := JS.lookup_prop c r.

(** Rows travel as JSON, written by [JSON.stringify].  A number that is
    not finite ([NaN], [Infinity], [-Infinity]) is written [null], and [-0]
    is written [0]. *)
Definition wire_number (x : float) : value :=
  if PrimFloat.is_nan x || PrimFloat.is_infinity x then VNull
  else if PrimFloat.is_zero x then VNum 0
  else VNum x.

(** What [JSON.stringify] writes for a value, read back as a value:
    [null] for a number that is not finite, for an invalid date and for an
    [undefined] element of an array; a property whose value is [undefined]
    is left out of its object.  A valid date is written as its ISO string,
    which denotes the same instant, and is kept here as that instant. *)
Fixpoint wire (v : value) : value :=
  match v with
  | VUndefined | VNull => VNull
  | VBool b => VBool b
  | VNum x => wire_number x
  | VStr s => VStr s
  | VDate (Some t) => VDate (Some t)
  | VDate None => VNull
  | VArr items => VArr (map wire items)
  | VObj props =>
      VObj ((fix wire_props (ps : list (string * value)) : list (string * value) :=
               match ps with
               | [] => []
               | (k, VUndefined) :: ps' => wire_props ps'
               | (k, x) :: ps' => (k, wire x) :: wire_props ps'
               end) props)
  end.

Definition defined (p : string * value) : bool :=
  match p.2 with VUndefined => false | _ => true end.

(** The row that the store receives: the properties that are not
    [undefined], each with the value that JSON carries for it. *)
Definition sent (payload : value) : row :=
  match payload with
  | VObj ps => map (λ p, (p.1, wire p.2)) (List.filter defined ps)
  | _ => []
  end.

Definition has_column (c : string) (r : row) : bool :=
  existsb (λ p, String.eqb c p.1) r.

Definition id_strings (rows : list row) : gset string :=
  list_to_set (omap (λ r, match column "id" r with VStr s => Some s | _ => None end) rows).

Definition fresh_id (rows : list row) : string := fresh (id_strings rows).

(** Modelled from the spec: the schema of the tables is not part of the
    sources.  Following the data model of the specification, every table
    has an [id] and a [created_at] column, which the store fills in when
    the inserted row does not give them: a fresh identifier, unique in the
    table, and the time of the store's own clock. *)
Definition stored_row (now : Z) (existing : list row) (payload : value) : row :=
  let r := sent payload in
  let r := if has_column "id" r then r else ("id", VStr (fresh_id existing)) :: r in
  if has_column "created_at" r then r else r ++ [("created_at", VDate (Some now))].

(** The rows a batch adds, each completed against the table as it is
    when its turn comes. *)
Fixpoint stored_rows (now : Z) (existing : list row) (payloads : list value) : list row :=
  match payloads with
  | [] => []
  | p :: ps =>
      let r := stored_row now existing p in
      r :: stored_rows now (existing ++ [r]) ps
  end.

(** The [eq] filter compares a column with a scalar. *)
Definition matches (x v : value) : bool :=
  match x, v with
  | VStr a, VStr b => String.eqb a b
  | VNum a, VNum b => PrimFloat.eqb a b
  | VBool a, VBool b => Bool.eqb a b
  | _, _ => false
  end.

Fixpoint set_column (c : string) (v : value) (r : row) : row :=
  match r with
  | [] => [(c, v)]
  | (c', v') :: r' =>
      if String.eqb c c' then (c, v) :: r' else (c', v') :: set_column c v r'
  end.

Definition patch_row (patch : row) (r : row) : row :=
  fold_left (λ acc p, set_column p.1 p.2 acc) patch r.

(** Ordering key of a timestamp column: [None] for SQL [NULL]. *)
Definition ts (v : value) : option Z :=
  match v with VDate t => t | _ => None end.

(** [a] sorts no later than [b] in descending order; as in PostgreSQL,
    [NULL] sorts first when the order is descending. *)
Definition desc (a b : option Z) : Prop :=
  match a, b with
  | None, _ => True
  | Some _, None => False
  | Some x, Some y => (y ≤ x)%Z
  end.

#[global] Instance desc_dec a b : Decision (desc a b).
Proof. destruct a, b; simpl; apply _. Defined.

Definition before (c : string) (r1 r2 : row) : Prop :=
  desc (ts (column c r1)) (ts (column c r2)).

#[global] Instance before_dec c r1 r2 : Decision (before c r1 r2).
Proof. unfold before. apply _. Defined.

Definition project (cols : option (list string)) (r : row) : row :=
  match cols with
  | None => r
  | Some cs => map (λ c, (c, match column c r with VUndefined => VNull | v => v end)) cs
  end.

Definition selected (rows : list row) (filter : option (string * value)) : list row :=
  match filter with
  | Some (c, v) => List.filter (λ r, matches (column c r) v) rows
  | None => rows
  end.

Definition select (rows : list row) (cols : option (list string))
    (filter : option (string * value)) (order : string) (limit : nat) : list row :=
  map (project cols) (take limit (merge_sort (before order) (selected rows filter))).

Definition upd (t : table) (rows : list row) (d : table → list row) : table → list row :=
  λ t', if decide (t = t') then rows else d t'.

(** What a call that the store accepts does to the tables, and the
    [data] it resolves to. *)
Definition apply (now : Z) (q : Query) (d : table → list row) : value * (table → list row) :=
  match q with
  | Insert t payloads =>
      (VNull, upd t (d t ++ stored_rows now (d t) payloads) d)
  | InsertSelectSingle t payloads =>
      let new := stored_rows now (d t) payloads in
      (match new with [r] => VObj r | _ => VNull end, upd t (d t ++ new) d)
  | Update t patch c v =>
      (VNull,
       upd t (map (λ r, if matches (column c r) v then patch_row (sent patch) r else r) (d t)) d)
  | Select t cols filter order limit =>
      (VArr (map VObj (select (d t) cols filter order limit)), d)
  end.

End Store.

(* ===================================================================== *)
(** ** The handlers *)
(* ===================================================================== *)

Record Response := { status : nat; json : value }.

Section Handlers.

Context (env : Env).

(** [new Date()] *)
Definition newDate : M value :=
  λ w, (Ret (VDate (Some (clock env (reads w)))),
        {| db := db w; trace := trace w; reads := S (reads w); calls := calls w |}).

(** [await] of a store call: the call is issued, and the store either
    reports an error and changes nothing, or carries it out. *)
Definition store (q : Query) : M Reply :=
  λ w,
    let k := calls w in
    match store_error env k with
    | Some e =>
        (Ret {| data := VNull; error := Some e |},
         {| db := db w; trace := trace w ++ [q]; reads := reads w; calls := S k |})
    | None =>
        let '(d, tables) := Store.apply (store_now env k) q (db w) in
        (Ret {| data := d; error := None |},
         {| db := tables; trace := trace w ++ [q]; reads := reads w; calls := S k |})
    end.

(** [if(error) throw error;] *)
Definition check (r : Reply) : M unit :=
  match error r with
  | Some e => throw e
  | None => ret tt
  end.

(** [res.json(v)] and [res.status(n).json(v)] *)
Definition res_json (v : value) : M Response := ret {| status := 200; json := v |}.
Definition res_status_json (n : nat) (v : value) : M Response := ret {| status := n; json := v |}.

Definition failure (message : string) : value :=
  VObj [("ok", VBool false); ("error", VStr message)].

(** The [catch] block shared by the handlers (the [console.error] line
    writes to the log only and is left out). *)
Definition on_error (e : string) : M Response := res_status_json 500 (failure e).

(** [app.post('/users', ...)], lines 42-58 *)
Definition post_users (req : Request) : M Response :=
  try_catch (
    do id <- member "id" (body req);
    let username := JS.prop "username" (body req) in
    let phone := JS.prop "phone" (body req) in
    if JS.truthy id then
      do r <- store (Update users (VObj [("username", username); ("phone", phone)]) "id" id);
      do _ <- check r;
      res_json (VObj [("ok", VBool true); ("id", id)])
    else
      do r <- store (InsertSelectSingle users [VObj [("username", username); ("phone", phone)]]);
      do _ <- check r;
      do new_id <- member "id" (data r);
      res_json (VObj [("ok", VBool true); ("id", new_id); ("user", data r)])
  ) on_error.

(** [app.post('/consent', ...)], lines 64-76 *)
Definition post_consent (req : Request) : M Response :=
  try_catch (
    do user_id <- member "user_id" (body req);
    let consent_text := JS.prop "consent_text" (body req) in
    if negb (JS.truthy user_id) || negb (JS.truthy consent_text) then
      res_status_json 400 (failure "user_id et consent_text requis")
    else
      do r <- store (Insert consent_logs
                    [VObj [("user_id", user_id); ("consent_text", consent_text);
                           ("given", VBool true)]]);
      do _ <- check r;
      res_json (VObj [("ok", VBool true)])
  ) on_error.

(** A string or [null] as a value. *)
Definition of_ip (ip : option string) : value :=
  match ip with Some s => VStr s | None => VNull end.

(** [app.post('/report-location', ...)], lines 83-99 *)
Definition post_report_location (req : Request) : M Response :=
  try_catch (
    let ip := getClientIp req in
    do user_id <- member "user_id" (body req);
    let latitude := JS.prop "latitude" (body req) in
    let longitude := JS.prop "longitude" (body req) in
    let accuracy := JS.prop "accuracy" (body req) in
    if negb (JS.truthy user_id) || negb (JS.is_number latitude) || negb (JS.is_number longitude) then
      res_status_json 400 (failure "user_id, latitude et longitude requis")
    else
      do created_at <- newDate;
      let payload :=
        VObj [("user_id", user_id); ("latitude", latitude); ("longitude", longitude);
              ("accuracy", JS.or accuracy VNull); ("ip", of_ip ip);
              ("created_at", created_at)] in
      do r <- store (Insert device_locations [payload]);
      do _ <- check r;
      res_json (VObj [("ok", VBool true)])
  ) on_error.

(** The callback of [calls.map], lines 110-117 *)
Definition call_row (user_id : value) (c : value) : M value :=
  do number <- member "number" c;
  let direction := JS.or (JS.prop "direction" c) VNull in
  let started_at :=
    if JS.truthy (JS.prop "started_at" c)
    then VDate (Date_parse env (JS.prop "started_at" c))
    else VNull in
  let duration_seconds := JS.or (JS.prop "duration_seconds" c) VNull in
  do created_at <- newDate;
  ret (VObj [("user_id", user_id); ("number", number); ("direction", direction);
             ("started_at", started_at); ("duration_seconds", duration_seconds);
             ("created_at", created_at)]).

(** [rows.length] as a number. *)
Definition number_of_nat (n : nat) : value :=
  VNum (PrimFloat.of_uint63 (Uint63.of_Z (Z.of_nat n))).

(** [app.post('/report-calls', ...)], lines 105-126 *)
Definition post_report_calls (req : Request) : M Response :=
  try_catch (
    do user_id <- member "user_id" (body req);
    let calls := JS.prop "calls" (body req) in
    if negb (JS.truthy user_id) || negb (JS.isArray calls) then
      res_status_json 400 (failure "user_id et calls[] requis")
    else
      do rows <- mapM (call_row user_id) (JS.items calls);
      do r <- store (Insert call_logs rows);
      do _ <- check r;
      res_json (VObj [("ok", VBool true); ("inserted", number_of_nat (length rows))])
  ) on_error.

(** [app.post('/report-ip', ...)], lines 133-164 *)
Definition post_report_ip (req : Request) : M Response :=
  try_catch (
    match IPINFO_TOKEN env with
    | Some token =>
        if negb (JS.truthy (VStr token)) then
          res_status_json 500 (failure "IPINFO_TOKEN non configuré")
        else
          do user_id <- member "user_id" (body req);
          if negb (JS.truthy user_id) then
            res_status_json 400 (failure "user_id requis")
          else
            let ip := getClientIp req in
            let url := "https://ipinfo.io/" +:+ default "null" ip +:+ "/json?token=" +:+ token in
            do geo <- (λ w, (fetch_json env url, w));
            do city <- member "city" geo;
            let region := JS.prop "region" geo in
            let country := JS.prop "country" geo in
            let loc := JS.prop "loc" geo in
            let org := JS.prop "org" geo in
            do created_at <- newDate;
            let row :=
              VObj [("user_id", user_id); ("ip", of_ip ip);
                    ("city", JS.or city VNull); ("region", JS.or region VNull);
                    ("country", JS.or country VNull); ("loc", JS.or loc VNull);
                    ("provider", JS.or org VNull); ("created_at", created_at)] in
            do r <- store (Insert ip_locations [row]);
            do _ <- check r;
            res_json (VObj [("ok", VBool true); ("geo", geo)])
    | None => res_status_json 500 (failure "IPINFO_TOKEN non configuré")
    end
  ) on_error.

(** The newest row of [t] for a user, as the admin listing asks for it. *)
Definition latest (t : table) (uid : value) (order : string) (limit : nat) : Query :=
  Select t None (Some ("user_id", uid)) order limit.

(** The body of the [for] loop, lines 174-179.  [Promise.all] issues the
    two calls of its array before either is awaited; the second result is
    dropped and the same call is issued again for [last_ip]. *)
Definition user_entry (u : value) : M value :=
  do uid <- member "id" u;
  do loc <- store (latest device_locations uid "created_at" 1);
  do _ <- store (latest ip_locations uid "created_at" 1);
  do cs <- store (latest call_logs uid "started_at" 10);
  do ip <- store (latest ip_locations uid "created_at" 1);
  ret (VObj [("user", u);
             ("last_location", JS.or (first_item (data loc)) VNull);
             ("last_ip", JS.or (first_item (data ip)) VNull);
             ("calls", JS.or (data cs) (VArr []))]).

(** [app.get('/admin/users', ...)], lines 167-186 *)
Definition get_admin_users (req : Request) : M Response :=
  try_catch (
    do r <- store (Select users (Some ["id"; "username"; "phone"; "created_at"]) None "created_at" 200);
    do us <- iterate (data r);
    do results <- mapM user_entry us;
    res_json (VObj [("ok", VBool true); ("results", VArr results)])
  ) on_error.

(** [app.get('/health', ...)], line 189 *)
Definition get_health (req : Request) : M Response :=
  do now <- newDate;
  res_json (VObj [("ok", VBool true);
                  ("time", match now with
                           | VDate (Some t) => VStr (toISOString env t)
                           | _ => VNull
                           end)]).

(** The routes registered on [app]. *)
Inductive Route : Type :=
| POST_users | POST_consent | POST_report_location | POST_report_calls
| POST_report_ip | GET_admin_users | GET_health.

Definition handle (route : Route) : Request → M Response :=
  match route with
  | POST_users => post_users
  | POST_consent => post_consent
  | POST_report_location => post_report_location
  | POST_report_calls => post_report_calls
  | POST_report_ip => post_report_ip
  | GET_admin_users => get_admin_users
  | GET_health => get_health
  end.

(** The server answering a sequence of requests, one after the other. *)
Fixpoint serve (reqs : list (Route * Request)) (w : World) : list (outcome Response) * World :=
  match reqs with
  | [] => ([], w)
  | (route, req) :: reqs' =>
      let '(o, w1) := handle route req w in
      let '(os, w2) := serve reqs' w1 in
      (o :: os, w2)
  end.

End Handlers.

(* ===================================================================== *)
(** ** Notions used to state the properties *)
(* ===================================================================== *)

Module Spec.

(** [e] is the first comma-separated entry of [s]: it holds no comma and
    is all of [s], or what comes before the first comma of [s]. *)
Definition first_entry (s e : string) : Prop :=
  (∀ c, In c (list_ascii_of_string e) → c ≠ ","%char) ∧
  (s = e ∨ ∃ rest, s = e +:+ String ","%char rest).

Definition blank (s : string) : Prop :=
  Forall (λ c, JS.is_space c = true) (list_ascii_of_string s).

(** [t] is [e] without its surrounding white space. *)
Definition trimmed (e t : string) : Prop :=
  (∃ l r, e = l +:+ t +:+ r ∧ blank l ∧ blank r) ∧
  (∀ c t', t = String c t' → JS.is_space c = false) ∧
  (∀ c t', t = t' +:+ String c EmptyString → JS.is_space c = false).

(** A non-empty string, what the specification asks of the two fields of a
    consent request. *)
Definition nonempty_string (v : value) : bool :=
  match v with VStr s => negb (String.eqb s "") | _ => false end.

Definition is_hex (c : ascii) : bool :=
  let n := nat_of_ascii c in
  ((48 <=? n) && (n <=? 57) || (65 <=? n) && (n <=? 70) || (97 <=? n) && (n <=? 102))%nat.

Fixpoint has_shape (shape s : string) : bool :=
  match shape, s with
  | EmptyString, EmptyString => true
  | String p shape', String c s' =>
      (if Ascii.eqb p "-" then Ascii.eqb c "-" else is_hex c) && has_shape shape' s'
  | _, _ => false
  end.

(** A well-formed identifier: the [uuid] that line 39 of server.js
    documents for [id], in its canonical textual form. *)
Definition well_formed_id (v : value) : bool :=
  match v with
  | VStr s => has_shape "xxxxxxxx-xxxx-xxxx-xxxx-xxxxxxxxxxxx" s
  | _ => false
  end.

(** A consent row that records consent as given. *)
Definition given_true (p : value) : Prop := JS.prop "given" p = VBool true.

(** A store call that leaves every consent row with [given = true]: an
    insert of such rows, or a call on another table. *)
Definition consent_safe (q : Query) : Prop :=
  match q with
  | Insert t rows | InsertSelectSingle t rows =>
      match t with consent_logs => Forall given_true rows | _ => True end
  | Update t _ _ _ => t ≠ consent_logs
  | Select _ _ _ _ _ => True
  end.

(** [p] carries as [created_at] a reading of the server clock taken
    between the [lo]-th reading (included) and the [hi]-th (excluded). *)
Definition stamped (env : Env) (lo hi : nat) (p : value) : Prop :=
  ∃ k, (lo ≤ k < hi)%nat ∧ JS.prop "created_at" p = VDate (Some (clock env k)).

(** A store call whose rows are timed by the server: rows for the three
    telemetry tables carry a clock reading of the interval; consent rows
    carry no [created_at] and leave it to the store; no other kind of call
    touches these four tables. *)
Definition server_timed (env : Env) (lo hi : nat) (q : Query) : Prop :=
  match q with
  | Insert t rows =>
      match t with
      | device_locations | call_logs | ip_locations => Forall (stamped env lo hi) rows
      | consent_logs => Forall (λ p, JS.hasOwn "created_at" p = false) rows
      | users => True
      end
  | InsertSelectSingle t _ | Update t _ _ _ => t = users
  | Select _ _ _ _ _ => True
  end.

(** Since the world had taken [lo] readings and issued the calls [tr0],
    only server-timed calls were added. *)
Definition timed (env : Env) (lo : nat) (tr0 : list Query) (w : World) : Prop :=
  (lo ≤ reads w)%nat ∧
  ∃ new, trace w = tr0 ++ new ∧ Forall (server_timed env lo (reads w)) new.

(** What is left of a call-log element, and of a request body, when the
    [created_at] a client may have put there is dropped. *)
Definition forget_created_at (v : value) : value :=
  match v with
  | VObj ps => VObj (List.filter (λ p, negb (String.eqb "created_at" p.1)) ps)
  | _ => v
  end.

Definition forget_calls (v : value) : value :=
  match v with
  | VArr items => VArr (map forget_created_at items)
  | x => x
  end.

Definition forget (b : value) : value :=
  match forget_created_at b with
  | VObj ps =>
      VObj (map (λ p, if String.eqb "calls" p.1 then (p.1, forget_calls p.2) else p) ps)
  | x => x
  end.

(** [page] holds the [n] first rows of [rows] in descending order of the
    column [c], all of them when there are fewer than [n]. *)
Definition newest_first (c : string) (n : nat) (rows page : list row) : Prop :=
  ∃ rest, page ++ rest ≡ₚ rows ∧
          StronglySorted (Store.before c) (page ++ rest) ∧
          length page = Nat.min n (length rows).

(** [v] is the row of [rows] with the greatest [c], [null] when [rows] is
    empty. *)
Definition latest_row (c : string) (rows : list row) (v : value) : Prop :=
  match rows with
  | [] => v = VNull
  | _ :: _ => ∃ r, v = VObj r ∧ r ∈ rows ∧ ∀ r', r' ∈ rows → Store.before c r r'
  end.

(** The rows of table [t] that belong to the user [uid]. *)
Definition rows_of (d : table → list row) (t : table) (uid : value) : list row :=
  List.filter (λ r, Store.matches (Store.column "user_id" r) uid) (d t).

(** All consent rows, sent or stored, have [given = true]. *)
Definition consent_given (w : World) : Prop :=
  Forall consent_safe (trace w) ∧
  Forall (λ r, Store.column "given" r = VBool true) (db w consent_logs).

End Spec.

(** The row that [call_row] builds for the element [c] when its
    [new Date()] is the [k]-th reading of the clock. *)
Definition call_payload (env : Env) (user_id : value) (k : nat) (c : value) : value :=
  VObj [("user_id", user_id); ("number", JS.prop "number" c);
        ("direction", JS.or (JS.prop "direction" c) VNull);
        ("started_at",
         if JS.truthy (JS.prop "started_at" c)
         then VDate (Date_parse env (JS.prop "started_at" c))
         else VNull);
        ("duration_seconds", JS.or (JS.prop "duration_seconds" c) VNull);
        ("created_at", VDate (Some (clock env k)))].

(** The store calls that [user_entry] issues for the user [uid]. *)
Definition asked (uid : value) : list Query :=
  [latest device_locations uid "created_at" 1; latest ip_locations uid "created_at" 1;
   latest call_logs uid "started_at" 10; latest ip_locations uid "created_at" 1].

(** The entry that [user_entry] builds for [u] over the tables [d] when
    the store answers its four calls. *)
Definition snapshot (d : table → list row) (u : value) : value :=
  let found t order limit :=
    VArr (map VObj (Store.select (d t) None (Some ("user_id", JS.prop "id" u)) order limit)) in
  VObj [("user", u);
        ("last_location", JS.or (first_item (found device_locations "created_at" 1%nat)) VNull);
        ("last_ip", JS.or (first_item (found ip_locations "created_at" 1%nat)) VNull);
        ("calls", JS.or (found call_logs "started_at" 10%nat) (VArr []))].

(** The world after the store has answered the read-only calls [qs]. *)
Definition answered (qs : list Query) (w : World) : World :=
  {| db := db w; trace := trace w ++ qs; reads := reads w; calls := length qs + calls w |}.

(** The world after [n] more readings of the clock. *)
Definition tick (n : nat) (w : World) : World :=
  {| db := db w; trace := trace w; reads := n + reads w; calls := calls w |}.

(** The same request with another body. *)
Definition with_body (req : Request) (b : value) : Request :=
  {| headers := headers req; socket := socket req; body := b |}.

(** [m] keeps the invariant [I] of the world, whatever it returns or
    throws. *)
Definition preserves {A} (I : World → Prop) (m : M A) : Prop :=
  ∀ w, I w → I (m w).2.

(* ===================================================================== *)
(** ** Notions for the behaviour of whole requests *)
(* ===================================================================== *)

(** Whatever [m] returns satisfies [P]. *)
Definition returns {A} (P : A → Prop) (m : M A) : Prop :=
  ∀ w, match (m w).1 with Ret a => P a | Throw _ => True end.

(** The two shapes of an answer: success with [ok: true], or a 400 or 500
    failure with [ok: false] and an error message. *)
Definition well_formed (r : Response) : Prop :=
  (status r = 200%nat ∧ JS.prop "ok" (json r) = VBool true) ∨
  ((status r = 400%nat ∨ status r = 500%nat) ∧ ∃ message, json r = failure message).

(** [m] leaves the world as it found it whenever it answers 400. *)
Definition quiet (m : M Response) : Prop :=
  ∀ w, match m w with
       | (Ret r, w') => status r = 400%nat → w' = w
       | (Throw _, _) => True
       end.

(** The routes that write. *)
Definition is_post (route : Route) : bool :=
  match route with
  | GET_admin_users | GET_health => false
  | _ => true
  end.

(** How a writing request ends: without any store call and with a
    failure; or with one store call, answered 200 when the store accepts
    it, and 500 with the store's message and unchanged tables when the
    store reports an error. *)
Definition write_run (env : Env) (w : World) (o : outcome Response) (w' : World) : Prop :=
  (trace w' = trace w ∧ db w' = db w ∧ calls w' = calls w ∧
   ∃ resp, o = Ret resp ∧ status resp ≠ 200%nat) ∨
  (∃ q, trace w' = trace w ++ [q] ∧ calls w' = S (calls w) ∧
        match store_error env (calls w) with
        | Some e => o = Ret {| status := 500; json := failure e |} ∧ db w' = db w
        | None =>
            (∃ resp, o = Ret resp ∧ status resp = 200%nat) ∧
            db w' = (Store.apply (store_now env (calls w)) q (db w)).2
        end).

Definition ends (env : Env) (w : World) (run : outcome Response * World) : Prop :=
  write_run env w run.1 run.2.

(** The value of a column after an update that sends [v] for it: [v] as
    JSON carries it to the store, unless the field was left out of the
    request. *)
Definition sent_or (v old : value) : value :=
  match v with VUndefined => old | _ => Store.wire v end.

Definition is_select (q : Query) : Prop :=
  match q with Select _ _ _ _ _ => True | _ => False end.

(** Since the tables were [d0] and the trace [tr0], only reads were
    issued and the tables have not changed. *)
Definition read_only (d0 : table → list row) (tr0 : list Query) (w : World) : Prop :=
  db w = d0 ∧ ∃ new, trace w = tr0 ++ new ∧ Forall is_select new.

(** Since the tables were [d0], the signal tables have only been appended
    to and no user has been removed. *)
Definition grown (d0 : table → list row) (w : World) : Prop :=
  (∀ t, t ≠ users → d0 t `prefix_of` db w t) ∧
  (length (d0 users) ≤ length (db w users))%nat.

(** A store call that removes nothing: only [users] is ever updated. *)
Definition keeps_rows (q : Query) : Prop :=
  match q with Update t _ _ _ => t = users | _ => True end.

(* ===================================================================== *)
(** ** The offline cache of the client (the service worker) *)
(* ===================================================================== *)

Module Worker.

Definition CACHE_NAME : string := "bot-cache-v1".

Definition urlsToCache : list string :=
  ["./index.html"; "./manifest.json"; "https://i.ibb.co/4JH0qZt/african-head.png"].

(** A response: whether [addAll] takes it (its status is in the range
    200-299), and its content. *)
Record Resource := { ok : bool; content : string }.

(** A request, as far as caches look at it. *)
Record Req := { method : string; url : string }.

Definition GET (u : string) : Req := {| method := "GET"; url := u |}.

(** The surroundings of the worker: how a URL of the list resolves
    against the worker's location, and what [fetch] resolves to ([None]
    when it rejects). *)
Record Net := {
  resolve : string → string;
  fetch : Req → option Resource
}.

(** [caches]: the named caches in the order of their creation, each a map
    from URL to response. *)
Definition Storage : Type := list (string * gmap string Resource).

(** [caches.open(name)] creates the cache when there is none of that
    name. *)
Fixpoint open (name : string) (st : Storage) : Storage :=
  match st with
  | [] => [(name, ∅)]
  | (n, c) :: st' => if String.eqb name n then st else (n, c) :: open name st'
  end.

(** The content of the cache [name]. *)
Fixpoint content_of (name : string) (st : Storage) : gmap string Resource :=
  match st with
  | [] => ∅
  | (n, c) :: st' => if String.eqb name n then c else content_of name st'
  end.

Fixpoint set_content (name : string) (c' : gmap string Resource) (st : Storage) : Storage :=
  match st with
  | [] => []
  | (n, c) :: st' =>
      if String.eqb name n then (n, c') :: st' else (n, c) :: set_content name c' st'
  end.

(** The fetches of [cache.addAll(urls)]: all of them must resolve to a
    response that is [ok]. *)
Fixpoint fetch_all (net : Net) (urls : list string) : option (list (string * Resource)) :=
  match urls with
  | [] => Some []
  | u :: urls' =>
      match fetch net (GET (resolve net u)) with
      | Some r =>
          if ok r
          then match fetch_all net urls' with
               | Some es => Some ((resolve net u, r) :: es)
               | None => None
               end
          else None
      | None => None
      end
  end.

(** [cache.addAll(urls)]: rejects, and stores nothing, when two of the
    requests are the same, when a fetch rejects or when a response is not
    [ok]; stores all the responses otherwise. *)
Definition addAll (net : Net) (urls : list string) (c : gmap string Resource)
    : option (gmap string Resource) :=
  if decide (NoDup (map (resolve net) urls))
  then match fetch_all net urls with
       | Some es => Some (list_to_map es ∪ c)
       | None => None
       end
  else None.

(** The [install] listener: whether the promise given to
    [event.waitUntil] is fulfilled, and the caches afterwards. *)
Definition install (net : Net) (st : Storage) : bool * Storage :=
  let st1 := open CACHE_NAME st in
  match addAll net urlsToCache (content_of CACHE_NAME st1) with
  | Some c' => (true, set_content CACHE_NAME c' st1)
  | None => (false, st1)
  end.

(** [cache.match(request)]: only GET requests are matched. *)
Definition cache_match (c : gmap string Resource) (req : Req) : option Resource :=
  if String.eqb (method req) "GET" then c !! url req else None.

(** [caches.match(request)]: the first match, in the order of creation of
    the caches. *)
Fixpoint caches_match (st : Storage) (req : Req) : option Resource :=
  match st with
  | [] => None
  | (_, c) :: st' =>
      match cache_match c req with
      | Some r => Some r
      | None => caches_match st' req
      end
  end.

(** The [fetch] listener: [response || fetch(event.request)]. *)
Definition on_fetch (net : Net) (st : Storage) (req : Req) : option Resource :=
  match caches_match st req with
  | Some r => Some r
  | None => fetch net req
  end.

(** A network that serves a page and a manifest but not the image, one
    that serves all three, and one that is down. *)
Definition page : Resource := {| ok := true; content := "<html>" |}.

Definition online : Net :=
  {| resolve := λ u, u; fetch := λ _, Some page |}.

Definition without_image : Net :=
  {| resolve := λ u, u;
     fetch := λ req, if String.eqb (url req) "https://i.ibb.co/4JH0qZt/african-head.png"
                     then None else Some page |}.

Definition offline : Net := {| resolve := λ u, u; fetch := λ _, None |}.

End Worker.






(* ===================================================================== *)
(** ** Concrete requests and worlds *)
(* ===================================================================== *)

Module Sample.

(** A request whose forwarded-address header is present as the empty
    string. *)
Definition empty_forwarded : Request :=
  {| headers := {[ "x-forwarded-for" := VStr "" ]};
     socket := Some {| remoteAddress := Some "10.0.0.1" |};
     body := VObj [] |}.

(** Oracles under which nothing fails: a clock that advances by one
    millisecond per reading, a store that accepts every call, a provider
    that knows nothing about the address. *)
Definition env : Env := {|
  clock := λ k, 1000 + Z.of_nat k;
  Date_parse := λ v, match v with VNum _ => Some 0 | _ => None end;
  toISOString := λ _, "1970-01-01T00:00:01.000Z";
  IPINFO_TOKEN := Some "token";
  fetch_json := λ _, Ret (VObj []);
  store_error := λ _, None;
  store_now := λ k, 5000 + Z.of_nat k
|}.

(** The server just started on empty tables. *)
Definition start : World := {| db := λ _, []; trace := []; reads := 0; calls := 0 |}.

(** A direct request with the given parsed body. *)
Definition request (b : value) : Request :=
  {| headers := ∅; socket := Some {| remoteAddress := Some "10.0.0.1" |}; body := b |}.

(** A location report whose [user_id] is present but empty. *)
Definition empty_user_location : Request :=
  request (VObj [("user_id", VStr ""); ("latitude", VNum 1); ("longitude", VNum 2)]).

(** A well-formed location report. *)
Definition location_report : Request :=
  request (VObj [("user_id", VStr "u1"); ("latitude", VNum 48.5); ("longitude", VNum 2.25)]).

(** A consent request whose two fields are truthy but are not strings. *)
Definition untyped_consent : Request :=
  request (VObj [("user_id", VNum 7); ("consent_text", VBool true)]).

(** A well-formed consent request. *)
Definition consent : Request :=
  request (VObj [("user_id", VStr "u1"); ("consent_text", VStr "I agree")]).

(** A registration whose [id] is not a well-formed identifier. *)
Definition malformed_id_registration : Request :=
  request (VObj [("id", VStr "not-a-uuid"); ("username", VStr "bob")]).

(** A registration whose [id] is present and empty. *)
Definition empty_id_registration : Request :=
  request (VObj [("id", VStr ""); ("username", VStr "alice")]).

(** A consent request that tries to record a refusal. *)
Definition refusal : Request :=
  request (VObj [("user_id", VStr "u1"); ("consent_text", VStr "no"); ("given", VBool false)]).




(** A location report that claims a creation time of its own. *)
Definition backdated_location : Request :=
  request (VObj [("user_id", VStr "u1"); ("latitude", VNum 48.5);
                 ("longitude", VNum 2.25); ("created_at", VStr "1999-01-01T00:00:00Z")]).

(** Tables with one user and two of her location rows, written at the
    times 100 and 200. *)
Definition located : World :=
  {| db := λ t,
       match t with
       | users => [[("id", VStr "u1"); ("username", VStr "alice");
                    ("created_at", VDate (Some 50))]]
       | device_locations =>
           [[("id", VStr "l1"); ("user_id", VStr "u1"); ("latitude", VNum 1);
             ("longitude", VNum 1); ("created_at", VDate (Some 100))];
            [("id", VStr "l2"); ("user_id", VStr "u1"); ("latitude", VNum 2);
             ("longitude", VNum 2); ("created_at", VDate (Some 200))]]
       | _ => []
       end;
     trace := []; reads := 0; calls := 0 |}.

(** The same oracles, with a store that fails its second call. *)
Definition flaky_env : Env := {|
  clock := clock env;
  Date_parse := Date_parse env;
  toISOString := toISOString env;
  IPINFO_TOKEN := IPINFO_TOKEN env;
  fetch_json := fetch_json env;
  store_error := λ k, if Nat.eqb k 1 then Some "connection reset" else None;
  store_now := store_now env
|}.

(** A call-log report one element of which is [null]. *)
Definition null_call : Request :=
  request (VObj [("user_id", VStr "u1");
                 ("calls", VArr [VObj [("number", VStr "0611111111")]; VNull])]).

(** A request that went through two proxies. *)
Definition forwarded_request : Request :=
  {| headers := {[ "x-forwarded-for" := VStr "1.2.3.4, 5.6.7.6" ]};
     socket := Some {| remoteAddress := Some "10.0.0.1" |};
     body := VObj [] |}.

(** A world in which one store call has already been made. *)
Definition once : World :=
  {| db := λ _, [];
     trace := [Select users (Some ["id"; "username"; "phone"; "created_at"]) None
                 "created_at" 200];
     reads := 0; calls := 1 |}.

(** A registration that updates the user ["u1"]. *)
Definition rename : Request :=
  request (VObj [("id", VStr "u1"); ("username", VStr "bob")]).

(** A request whose forwarded-address header begins with a blank entry. *)
Definition blank_forwarded : Request :=
  {| headers := {[ "x-forwarded-for" := VStr " , 10.0.0.7" ]};
     socket := Some {| remoteAddress := Some "10.0.0.1" |};
     body := VObj [("user_id", VStr "u1"); ("latitude", VNum 1); ("longitude", VNum 2)] |}.

(** An IP report, and oracles without a provider token, with a provider
    that fails, and with a provider that answers [null]. *)
Definition ip_report : Request := request (VObj [("user_id", VStr "u1")]).

Definition no_token_env : Env := {|
  clock := clock env; Date_parse := Date_parse env; toISOString := toISOString env;
  IPINFO_TOKEN := None;
  fetch_json := fetch_json env; store_error := store_error env; store_now := store_now env
|}.

Definition offline_env : Env := {|
  clock := clock env; Date_parse := Date_parse env; toISOString := toISOString env;
  IPINFO_TOKEN := IPINFO_TOKEN env;
  fetch_json := λ _, Throw "fetch failed";
  store_error := store_error env; store_now := store_now env
|}.

(** A registration without an [id]. *)
Definition registration : Request :=
  request (VObj [("username", VStr "carol"); ("phone", VStr "0633333333")]).

(** A new location report for the user of [located], at a time later than
    her stored rows. *)
Definition later_env : Env := {|
  clock := λ k, 300 + Z.of_nat k;
  Date_parse := Date_parse env; toISOString := toISOString env;
  IPINFO_TOKEN := IPINFO_TOKEN env; fetch_json := fetch_json env;
  store_error := store_error env; store_now := store_now env
|}.

(** A registration that tries to set columns of its own. *)
Definition overreaching_registration : Request :=
  request (VObj [("username", VStr "mallory"); ("created_at", VStr "1999-01-01");
                 ("role", VStr "admin")]).

(** A location report whose latitude was written [1e999], which the JSON
    parser reads as [Infinity]. *)
Definition overflowing_location : Request :=
  request (VObj [("user_id", VStr "u1"); ("latitude", VNum infinity); ("longitude", VNum 2.25)]).

End Sample.

(* ===================================================================== *)
(** ** Strings: [split] and [trim] *)
(* ===================================================================== *)

Lemma split_cons (sep : ascii) (s : string) :
  ∃ e es, JS.split sep s = e :: es.
Proof.
  destruct s as [|c s]; simpl; [eauto|].
  destruct (Ascii.eqb c sep); [eauto|].
  destruct (JS.split sep s); eauto.
Qed.

Lemma split_first_entry (s e : string) (es : list string) :
  JS.split "," s = e :: es → Spec.first_entry s e.
Proof.
  revert e es. induction s as [|c s IH]; simpl; intros e es H.
  - inversion H; subst. split; [intros c []|by left].
  - destruct (Ascii.eqb_spec c ","%char) as [->|Hc].
    + inversion H; subst. split; [intros c []|]. right. by exists s.
    + destruct (JS.split "," s) as [|e' es'] eqn:Hs.
      { destruct (split_cons "," s) as (a & b & Hab). congruence. }
      inversion H; subst. destruct (IH _ _ eq_refl) as [Hno Hsplit].
      split.
      * intros c' [<-|Hin]; [done|by apply Hno].
      * destruct Hsplit as [->|[rest ->]]; [by left|]. right. by exists rest.
Qed.

Lemma append_cons (c : ascii) (a b : string) :
  String c a +:+ b = String c (a +:+ b).
Proof. reflexivity. Qed.

Lemma append_nil (b : string) : "" +:+ b = b.
Proof. reflexivity. Qed.

Lemma trimStart_spec (s : string) :
  (∃ l, s = l +:+ JS.trimStart s ∧ Spec.blank l) ∧
  (∀ c t', JS.trimStart s = String c t' → JS.is_space c = false).
Proof.
  induction s as [|c s [[l [Hl Hb]] IH]]; simpl.
  - split; [exists ""; split; [done|constructor]|done].
  - destruct (JS.is_space c) eqn:Hc.
    + split; [|done]. exists (String c l). split; [by rewrite append_cons, <- Hl|].
      by constructor.
    + split; [exists ""; split; [done|constructor]|]. intros ?? [= <- <-]. done.
Qed.

Lemma trimEnd_spec (s : string) :
  (∃ r, s = JS.trimEnd s +:+ r ∧ Spec.blank r) ∧
  (∀ c t', JS.trimEnd s = t' +:+ String c EmptyString → JS.is_space c = false).
Proof.
  induction s as [|c s [[r [Hr Hb]] IH]]; simpl.
  - split; [exists ""; split; [done|constructor]|]. by intros ? [|??].
  - destruct (JS.trimEnd s) as [|c' t] eqn:Ht.
    + rewrite append_nil in Hr. subst r. destruct (JS.is_space c) eqn:Hc.
      * split; [|by intros ? [|??]]. exists (String c s). split; [done|].
        by constructor.
      * split; [exists s; by split|].
        intros c1 [|c2 t2]; [rewrite append_nil|rewrite append_cons].
        -- by intros [= <-].
        -- intros [= _ H]. by destruct t2.
    + split.
      * exists r. split; [by rewrite append_cons, <- Hr|done].
      * intros c1 [|c2 t2]; [rewrite append_nil|rewrite append_cons].
        -- done.
        -- intros [= _ H]. by eapply IH.
Qed.

Lemma trimEnd_head (s : string) (c : ascii) (t : string) :
  JS.trimEnd s = String c t → ∃ s', s = String c s'.
Proof.
  destruct s as [|c0 s]; simpl; [done|].
  destruct (JS.trimEnd s); [destruct (JS.is_space c0)|]; intros [= <- <-]; eauto.
Qed.

Lemma trim_trimmed (e : string) : Spec.trimmed e (JS.trim e).
Proof.
  unfold JS.trim.
  destruct (trimStart_spec e) as [[l [Hl Hbl]] Hhead].
  destruct (trimEnd_spec (JS.trimStart e)) as [[r [Hr Hbr]] Hlast].
  split; [|split].
  - exists l, r. split; [|done]. by rewrite <- Hr.
  - intros c t' Ht. destruct (trimEnd_head _ _ _ Ht) as [s' Hs']. by eapply Hhead.
  - done.
Qed.

(* ===================================================================== *)
(** ** The client network resolver *)
(* ===================================================================== *)

(** C7, as stated, fails when the forwarded-address header is present as
    the empty string: its first comma-separated entry, trimmed, is the
    empty string, but the resolver answers with the peer address. *)
Lemma C7_empty_header_falls_back :
  headers Sample.empty_forwarded !! "x-forwarded-for" = Some (VStr "") ∧
  Spec.first_entry "" "" ∧ JS.trim "" = "" ∧
  getClientIp Sample.empty_forwarded = Some "10.0.0.1" ∧
  getClientIp Sample.empty_forwarded ≠ Some (JS.trim "").
Proof.
  split; [done|]. split; [split; [intros c []|by left]|].
  split; [done|]. split; [reflexivity|]. vm_compute. discriminate.
Qed.

(** C7 (amended): when the [x-forwarded-for] header is present as a
    non-empty string, the resolver returns its first comma-separated entry
    with the surrounding white space trimmed (["1.2.3.4, 5.6.7.6"] resolves
    to ["1.2.3.4"]); in every other case (header absent, not a string, or
    the empty string) it returns the transport-level peer address, or
    [null] when there is no socket or no non-empty peer address. *)
Theorem C7_getClientIp (req : Request) :
  (∀ s, headers req !! "x-forwarded-for" = Some (VStr s) → s ≠ "" →
     ∃ e, Spec.first_entry s e ∧ Spec.trimmed e (JS.trim e) ∧
          getClientIp req = Some (JS.trim e)) ∧
  ((∀ s, headers req !! "x-forwarded-for" = Some (VStr s) → s = "") →
     getClientIp req = peerAddress req ∧
     (∀ a, peerAddress req = Some a ↔
           a ≠ "" ∧ ∃ sock, socket req = Some sock ∧ remoteAddress sock = Some a)) ∧
  (headers req !! "x-forwarded-for" = Some (VStr "1.2.3.4, 5.6.7.6") →
     getClientIp req = Some "1.2.3.4").
Proof.
  split; [|split].
  - intros s Hs Hne. unfold getClientIp, header. rewrite Hs. simpl.
    destruct (String.eqb_spec s "") as [->|_]; [done|]. simpl.
    destruct (split_cons "," s) as (e & es & Hsplit). rewrite Hsplit.
    exists e. split; [by eapply split_first_entry|]. split; [apply trim_trimmed|done].
  - intros Hxff. split.
    + unfold getClientIp, header.
      destruct (headers req !! "x-forwarded-for") as [[| | | |s| | |]|] eqn:Hh; simpl;
        try done; try by rewrite andb_false_r.
      by rewrite (Hxff s eq_refl).
    + intros a. unfold peerAddress. destruct (socket req) as [[[a'|]]|]; simpl.
      * destruct (String.eqb_spec a' "") as [->|Hne]; simpl.
        -- split; [done|]. intros [Ha (sock & [= <-] & [= <-])]. done.
        -- split; [intros [= <-]; eauto|]. by intros [_ (sock & [= <-] & [= <-])].
      * split; [done|]. by intros [_ (sock & [= <-] & ?)].
      * split; [done|]. by intros [_ (sock & ? & _)].
  - intros Hs. unfold getClientIp, header. by rewrite Hs.
Qed.

Lemma C7_getClientIp_witness :
  getClientIp Sample.forwarded_request = Some "1.2.3.4".
Proof.
  apply (C7_getClientIp Sample.forwarded_request). reflexivity.
Defined.

(* ===================================================================== *)
(** ** Running handler code *)
(* ===================================================================== *)

Lemma member_ok (k : string) (v : value) (w : World) :
  JS.nullish v = false → member k v w = (Ret (JS.prop k v), w).
Proof. intros H. unfold member. by rewrite H. Qed.

Lemma store_accepts (env : Env) (q : Query) (w : World) :
  store_error env (calls w) = None →
  store env q w =
    (Ret {| data := (Store.apply (store_now env (calls w)) q (db w)).1; error := None |},
     {| db := (Store.apply (store_now env (calls w)) q (db w)).2;
        trace := trace w ++ [q]; reads := reads w; calls := S (calls w) |}).
Proof.
  intros H. unfold store. rewrite H.
  by destruct (Store.apply (store_now env (calls w)) q (db w)).
Qed.

Lemma store_rejects (env : Env) (q : Query) (w : World) (e : string) :
  store_error env (calls w) = Some e →
  store env q w =
    (Ret {| data := VNull; error := Some e |},
     {| db := db w; trace := trace w ++ [q]; reads := reads w; calls := S (calls w) |}).
Proof. intros H. unfold store. by rewrite H. Qed.

Lemma truthy_defined (v : value) : JS.truthy v = true → v ≠ VUndefined.
Proof. by intros H ->. Qed.

Lemma number_defined (v : value) : JS.is_number v = true → v ≠ VUndefined.
Proof. by intros H ->. Qed.

(* ===================================================================== *)
(** ** What the store keeps of a row *)
(* ===================================================================== *)

Lemma wire_defined (v : value) : Store.wire v ≠ VUndefined.
Proof.
  destruct v as [| | |x| |[t|]| |]; simpl; try done.
  unfold Store.wire_number.
  destruct (_ || _); [done|]. by destruct (PrimFloat.is_zero x).
Qed.

(** A finite number other than zero reaches the store as it is, and so
    does a string. *)
Lemma wire_finite (x : float) :
  PrimFloat.is_nan x = false → PrimFloat.is_infinity x = false →
  PrimFloat.is_zero x = false → Store.wire (VNum x) = VNum x.
Proof. intros Hnan Hinf Hzero. simpl. unfold Store.wire_number. by rewrite Hnan, Hinf, Hzero. Qed.

Lemma wire_string (s : string) : Store.wire (VStr s) = VStr s.
Proof. done. Qed.

(** A number that is not finite reaches the store as [null]. *)
Lemma wire_not_finite (x : float) :
  PrimFloat.is_nan x || PrimFloat.is_infinity x = true → Store.wire (VNum x) = VNull.
Proof. intros H. simpl. unfold Store.wire_number. by rewrite H. Qed.

Lemma sent_column (c : string) (ps : list (string * value)) :
  JS.lookup_prop c ps ≠ VUndefined →
  Store.column c (Store.sent (VObj ps)) = Store.wire (JS.lookup_prop c ps).
Proof.
  unfold Store.column, Store.sent.
  induction ps as [|[k v] ps IH]; [done|].
  cbn [List.filter JS.lookup_prop]. unfold Store.defined at 1. cbn [snd].
  destruct (String.eqb_spec c k) as [->|Hne]; intros Hv.
  - destruct v; try done; cbn [map JS.lookup_prop fst snd]; by rewrite String.eqb_refl.
  - destruct v; cbn [map JS.lookup_prop fst snd];
      try (destruct (String.eqb_spec c k); [done|]); by apply IH.
Qed.

Lemma has_column_defined (c : string) (r : row) :
  Store.column c r ≠ VUndefined → Store.has_column c r = true.
Proof.
  unfold Store.column, Store.has_column.
  induction r as [|[k v] r IH]; simpl; [done|].
  destruct (String.eqb c k); [done|]. apply IH.
Qed.

Lemma column_app (c : string) (r r' : row) :
  Store.column c r ≠ VUndefined → Store.column c (r ++ r') = Store.column c r.
Proof.
  unfold Store.column. induction r as [|[k v] r IH]; simpl; [done|].
  destruct (String.eqb c k); [done|]. apply IH.
Qed.

(** A column that the payload gives is stored with the value that JSON
    carries for it. *)
Lemma stored_row_column (now : Z) (existing : list row) (c : string)
    (ps : list (string * value)) :
  JS.lookup_prop c ps ≠ VUndefined →
  Store.column c (Store.stored_row now existing (VObj ps))
    = Store.wire (JS.lookup_prop c ps).
Proof.
  intros Hv. unfold Store.stored_row.
  pose proof (sent_column c ps Hv) as Hs.
  set (r := Store.sent (VObj ps)) in *.
  assert (Store.column c
            (if Store.has_column "id" r then r
             else ("id", VStr (Store.fresh_id existing)) :: r)
          = Store.wire (JS.lookup_prop c ps)) as Hid.
  { destruct (Store.has_column "id" r) eqn:Hhas; [done|].
    unfold Store.column. simpl. destruct (String.eqb_spec c "id") as [->|_]; [|done].
    rewrite has_column_defined in Hhas; [done|]. rewrite Hs. apply wire_defined. }
  destruct (Store.has_column "created_at" _); [done|].
  rewrite column_app; [done|]. rewrite Hid. apply wire_defined.
Qed.

Lemma stored_rows_length (now : Z) (payloads : list value) (existing : list row) :
  length (Store.stored_rows now existing payloads) = length payloads.
Proof.
  revert existing. induction payloads as [|p ps IH]; intros existing; simpl; [done|].
  by rewrite IH.
Qed.

Lemma upd_same (t : table) (rows : list row) (d : table → list row) :
  Store.upd t rows d t = rows.
Proof. unfold Store.upd. by rewrite decide_True. Qed.

Lemma upd_other (t t' : table) (rows : list row) (d : table → list row) :
  t ≠ t' → Store.upd t rows d t' = d t'.
Proof. intros H. unfold Store.upd. by rewrite decide_False. Qed.

(* ===================================================================== *)
(** ** Location reports *)
(* ===================================================================== *)

(** C2, as stated, fails for a report whose [user_id] is present but
    falsy: latitude and longitude are numbers, yet the answer is 400 and
    nothing is written. *)
Lemma C2_present_empty_user_id_rejected :
  JS.hasOwn "user_id" (body Sample.empty_user_location) = true ∧
  JS.is_number (JS.prop "latitude" (body Sample.empty_user_location)) = true ∧
  JS.is_number (JS.prop "longitude" (body Sample.empty_user_location)) = true ∧
  ∃ resp,
    post_report_location Sample.env Sample.empty_user_location Sample.start
      = (Ret resp, Sample.start) ∧
    status resp = 400%nat ∧ trace Sample.start = [].
Proof. repeat split. eexists. repeat split. Qed.

(** C2 (amended): a location report whose [user_id] is missing or falsy,
    or whose latitude or longitude is missing or not of numeric type
    (numeric strings included), is answered with HTTP 400 and no store call
    is made; when [user_id] is truthy and latitude and longitude are
    numbers, a single insert of a single row is issued on
    [device_locations], and the row is stored (HTTP 200) when the store
    accepts it, or nothing is stored (HTTP 500) when the store reports an
    error.  The stored [user_id], [latitude] and [longitude] are the
    submitted values as JSON carries them to the store ([Store.wire]).  The
    request is one that has a body: [req.body] is neither [undefined] nor
    [null]. *)
Theorem C2_report_location (env : Env) (req : Request) (w : World) :
  JS.nullish (body req) = false →
  (JS.truthy (JS.prop "user_id" (body req)) = false ∨
   JS.is_number (JS.prop "latitude" (body req)) = false ∨
   JS.is_number (JS.prop "longitude" (body req)) = false →
     post_report_location env req w =
       (Ret {| status := 400; json := failure "user_id, latitude et longitude requis" |}, w)) ∧
  (JS.truthy (JS.prop "user_id" (body req)) = true →
   JS.is_number (JS.prop "latitude" (body req)) = true →
   JS.is_number (JS.prop "longitude" (body req)) = true →
     ∃ resp w' payload,
       post_report_location env req w = (Ret resp, w') ∧
       trace w' = trace w ++ [Insert device_locations [payload]] ∧
       (∀ t, t ≠ device_locations → db w' t = db w t) ∧
       match store_error env (calls w) with
       | None =>
           status resp = 200%nat ∧
           ∃ r, db w' device_locations = db w device_locations ++ [r] ∧
                Store.column "user_id" r = Store.wire (JS.prop "user_id" (body req)) ∧
                Store.column "latitude" r = Store.wire (JS.prop "latitude" (body req)) ∧
                Store.column "longitude" r = Store.wire (JS.prop "longitude" (body req))
       | Some e =>
           status resp = 500%nat ∧ db w' device_locations = db w device_locations
       end) ∧
  (JS.truthy VUndefined = false ∧ JS.is_number VUndefined = false ∧
   ∀ s, JS.is_number (VStr s) = false).
Proof.
  intros Hbody. split; [|split; [|done]].
  - intros Hbad. unfold post_report_location, try_catch, bind.
    rewrite member_ok by done.
    destruct (JS.truthy (JS.prop "user_id" (body req))),
             (JS.is_number (JS.prop "latitude" (body req))),
             (JS.is_number (JS.prop "longitude" (body req))); simpl; try done.
    by destruct Hbad as [|[|]].
  - intros Hu Hlat Hlon. unfold post_report_location, try_catch, bind.
    rewrite member_ok by done. rewrite Hu, Hlat, Hlon. simpl.
    destruct (store_error env (calls w)) as [e|] eqn:Hstore.
    + rewrite (store_rejects env _ _ e) by done. simpl.
      eexists _, _, _. split; [reflexivity|]. by simpl.
    + rewrite store_accepts by done. simpl.
      eexists _, _, _. split; [reflexivity|]. simpl.
      split; [done|]. split; [intros t Ht; by rewrite upd_other|].
      split; [done|]. rewrite upd_same. eexists. split; [reflexivity|].
      rewrite !stored_row_column; simpl; try done;
        auto using truthy_defined, number_defined.
Qed.

Lemma C2_report_location_witness :
  ∃ resp w' payload,
    post_report_location Sample.env Sample.location_report Sample.start = (Ret resp, w') ∧
    trace w' = trace Sample.start ++ [Insert device_locations [payload]].
Proof.
  destruct (C2_report_location Sample.env Sample.location_report Sample.start eq_refl)
    as (_ & Hok & _).
  destruct (Hok eq_refl eq_refl eq_refl) as (resp & w' & payload & Hrun & Htrace & _).
  by exists resp, w', payload.
Defined.

(** A latitude written [1e999] is read as [Infinity], which is a number:
    the report is accepted, and the row is stored with [null] for its
    latitude. *)
Example overflowing_latitude_stored_as_null :
  JS.is_number (JS.prop "latitude" (body Sample.overflowing_location)) = true ∧
  ∃ w' r,
    post_report_location Sample.env Sample.overflowing_location Sample.start
      = (Ret {| status := 200; json := VObj [("ok", VBool true)] |}, w') ∧
    db w' device_locations = [r] ∧
    Store.column "latitude" r = VNull.
Proof.
  split; [reflexivity|]. eexists _, _. split; [vm_compute; reflexivity|].
  split; reflexivity.
Qed.

(* ===================================================================== *)
(** ** Consent *)
(* ===================================================================== *)

(** C6, as stated, fails for a consent request whose fields are truthy
    without being strings: validation succeeds and a row is written. *)
Lemma C6_truthy_non_strings_accepted :
  Spec.nonempty_string (JS.prop "user_id" (body Sample.untyped_consent)) = false ∧
  Spec.nonempty_string (JS.prop "consent_text" (body Sample.untyped_consent)) = false ∧
  ∃ w' r,
    post_consent Sample.env Sample.untyped_consent Sample.start
      = (Ret {| status := 200; json := VObj [("ok", VBool true)] |}, w') ∧
    db w' consent_logs = [r].
Proof. repeat split. eexists _, _. split; vm_compute; reflexivity. Qed.

(** C6 (amended): validation of a consent request succeeds exactly when
    [user_id] and [consent_text] are both truthy (a non-empty string is,
    and so is any non-zero number, [true], array or object).  If either is
    absent or falsy the endpoint responds HTTP 400 and makes no store call;
    otherwise it issues one insert of one row on [consent_logs], and exactly
    one row is stored (HTTP 200) when the store accepts it, none (HTTP 500)
    when the store reports an error.  The stored [user_id] and
    [consent_text] are the submitted values as JSON carries them to the
    store ([Store.wire]).  The request is one that has a body: [req.body]
    is neither [undefined] nor [null]. *)
Theorem C6_consent (env : Env) (req : Request) (w : World) :
  JS.nullish (body req) = false →
  (JS.truthy (JS.prop "user_id" (body req)) = false ∨
   JS.truthy (JS.prop "consent_text" (body req)) = false →
     post_consent env req w =
       (Ret {| status := 400; json := failure "user_id et consent_text requis" |}, w)) ∧
  (JS.truthy (JS.prop "user_id" (body req)) = true →
   JS.truthy (JS.prop "consent_text" (body req)) = true →
     ∃ resp w',
       post_consent env req w = (Ret resp, w') ∧
       trace w' = trace w ++
         [Insert consent_logs
            [VObj [("user_id", JS.prop "user_id" (body req));
                   ("consent_text", JS.prop "consent_text" (body req));
                   ("given", VBool true)]]] ∧
       (∀ t, t ≠ consent_logs → db w' t = db w t) ∧
       match store_error env (calls w) with
       | None =>
           status resp = 200%nat ∧
           ∃ r, db w' consent_logs = db w consent_logs ++ [r] ∧
                Store.column "user_id" r = Store.wire (JS.prop "user_id" (body req)) ∧
                Store.column "consent_text" r = Store.wire (JS.prop "consent_text" (body req))
       | Some e =>
           status resp = 500%nat ∧ db w' consent_logs = db w consent_logs
       end) ∧
  (∀ v, Spec.nonempty_string v = true → JS.truthy v = true).
Proof.
  intros Hbody. split; [|split; [|by intros []]].
  - intros Hbad. unfold post_consent, try_catch, bind.
    rewrite member_ok by done.
    destruct (JS.truthy (JS.prop "user_id" (body req))),
             (JS.truthy (JS.prop "consent_text" (body req))); simpl; try done.
    by destruct Hbad.
  - intros Hu Hc. unfold post_consent, try_catch, bind.
    rewrite member_ok by done. rewrite Hu, Hc. simpl.
    destruct (store_error env (calls w)) as [e|] eqn:Hstore.
    + rewrite (store_rejects env _ _ e) by done. simpl.
      eexists _, _. split; [reflexivity|]. by simpl.
    + rewrite store_accepts by done. simpl.
      eexists _, _. split; [reflexivity|]. simpl.
      split; [done|]. split; [intros t Ht; by rewrite upd_other|].
      split; [done|]. rewrite upd_same. eexists. split; [reflexivity|].
      rewrite !stored_row_column; simpl; try done; auto using truthy_defined.
Qed.

Lemma C6_consent_witness :
  ∃ resp w',
    post_consent Sample.env Sample.consent Sample.start = (Ret resp, w') ∧
    length (trace w') = 1%nat.
Proof.
  destruct (C6_consent Sample.env Sample.consent Sample.start eq_refl) as (_ & Hok & _).
  destruct (Hok eq_refl eq_refl) as (resp & w' & Hrun & Htrace & _).
  exists resp, w'. split; [exact Hrun|]. by rewrite Htrace.
Defined.

(* ===================================================================== *)
(** ** Registration *)
(* ===================================================================== *)

Lemma new_user_has_no_id (username phone : value) :
  Store.has_column "id" (Store.sent (VObj [("username", username); ("phone", phone)])) = false.
Proof. by destruct username, phone. Qed.

Lemma fresh_id_is_fresh (rows : list row) (r : row) :
  r ∈ rows → Store.column "id" r ≠ VStr (Store.fresh_id rows).
Proof.
  intros Hr Hid. apply (is_fresh (Store.id_strings rows)).
  unfold Store.id_strings. apply elem_of_list_to_set, list_elem_of_omap.
  exists r. split; [done|]. by rewrite Hid.
Qed.

(** The row that the store keeps of a new user. *)
Lemma new_user_stored (now : Z) (rows : list row) (username phone : value) :
  ∃ r, Store.stored_rows now rows [VObj [("username", username); ("phone", phone)]] = [r] ∧
       Store.column "id" r = VStr (Store.fresh_id rows).
Proof.
  eexists. split; [reflexivity|]. unfold Store.stored_row.
  rewrite new_user_has_no_id.
  destruct (Store.has_column "created_at" _); [done|]. by rewrite column_app.
Qed.

(** C3, as stated, fails: a registration whose [id] is not a well-formed
    identifier is not validated at all; the update is sent to the store and
    the answer is 200. *)
Lemma C3_malformed_id_not_rejected :
  Spec.well_formed_id (JS.prop "id" (body Sample.malformed_id_registration)) = false ∧
  ∃ w',
    post_users Sample.env Sample.malformed_id_registration Sample.start
      = (Ret {| status := 200;
                json := VObj [("ok", VBool true); ("id", VStr "not-a-uuid")] |}, w') ∧
    trace w' = [Update users (VObj [("username", VStr "bob"); ("phone", VUndefined)])
                  "id" (VStr "not-a-uuid")].
Proof. split; [reflexivity|]. eexists. split; reflexivity. Qed.

(** C3 (amended): the registration endpoint does not validate [id] and
    never answers HTTP 400.  Every registration request with a parsed body
    leads to exactly one store call, an update when [id] is truthy (well
    formed or not) and an insert otherwise, answered with HTTP 200 when the
    store accepts the call and with HTTP 500 when it reports an error. *)
Theorem C3_registration_not_validated (env : Env) (req : Request) (w : World) :
  ∃ resp w',
    post_users env req w = (Ret resp, w') ∧
    status resp ≠ 400%nat ∧
    (JS.nullish (body req) = false →
       trace w' = trace w ++
         [if JS.truthy (JS.prop "id" (body req))
          then Update users
                 (VObj [("username", JS.prop "username" (body req));
                        ("phone", JS.prop "phone" (body req))])
                 "id" (JS.prop "id" (body req))
          else InsertSelectSingle users
                 [VObj [("username", JS.prop "username" (body req));
                        ("phone", JS.prop "phone" (body req))]]] ∧
       status resp = match store_error env (calls w) with
                     | None => 200%nat
                     | Some _ => 500%nat
                     end).
Proof.
  unfold post_users, try_catch, bind, member.
  destruct (JS.nullish (body req)) eqn:Hbody.
  { eexists _, _. split; [reflexivity|]. by split. }
  simpl.
  destruct (JS.truthy (JS.prop "id" (body req))) eqn:Hid;
    destruct (store_error env (calls w)) as [e|] eqn:Hstore.
  - rewrite (store_rejects env _ _ e) by done. simpl.
    eexists _, _. split; [reflexivity|]. by split.
  - rewrite store_accepts by done. simpl.
    eexists _, _. split; [reflexivity|]. by split.
  - rewrite (store_rejects env _ _ e) by done. simpl.
    eexists _, _. split; [reflexivity|]. by split.
  - rewrite store_accepts by done. simpl.
    eexists _, _. split; [reflexivity|]. by split.
Qed.

Lemma C3_registration_not_validated_witness :
  ∃ resp w',
    post_users Sample.env Sample.malformed_id_registration Sample.start = (Ret resp, w') ∧
    status resp = 200%nat.
Proof.
  destruct (C3_registration_not_validated
              Sample.env Sample.malformed_id_registration Sample.start)
    as (resp & w' & Hrun & _ & Hparsed).
  exists resp, w'. split; [exact Hrun|]. by destruct (Hparsed eq_refl) as [_ ->].
Defined.

(** C10: a registration request whose [id] is falsy (the empty string,
    for one; present or not) takes the insert path, never the update path:
    the one store call is an insert of [{ username, phone }] on [users], and
    when the store accepts it the new user carries an identifier generated
    by the store that no row of [users] had before, returned as [id]. *)
Theorem C10_falsy_id_inserts (env : Env) (req : Request) (w : World) :
  JS.nullish (body req) = false →
  JS.truthy (JS.prop "id" (body req)) = false →
  ∃ resp w',
    post_users env req w = (Ret resp, w') ∧
    trace w' = trace w ++
      [InsertSelectSingle users
         [VObj [("username", JS.prop "username" (body req));
                ("phone", JS.prop "phone" (body req))]]] ∧
    (store_error env (calls w) = None →
       ∃ new_id r,
         resp = {| status := 200;
                   json := VObj [("ok", VBool true); ("id", VStr new_id); ("user", VObj r)] |} ∧
         db w' users = db w users ++ [r] ∧
         Store.column "id" r = VStr new_id ∧
         ∀ r', r' ∈ db w users → Store.column "id" r' ≠ VStr new_id).
Proof.
  intros Hbody Hid. unfold post_users, try_catch, bind.
  rewrite member_ok by done. rewrite Hid.
  destruct (store_error env (calls w)) as [e|] eqn:Hstore.
  - rewrite (store_rejects env _ _ e) by done. simpl.
    eexists _, _. split; [reflexivity|]. by split.
  - rewrite store_accepts by done. cbn [Store.apply fst snd data error check].
    destruct (new_user_stored (store_now env (calls w)) (db w users)
                (JS.prop "username" (body req)) (JS.prop "phone" (body req)))
      as (r & -> & Hr).
    cbn [bind ret member JS.nullish JS.prop res_json]. unfold member, ret, res_json. simpl.
    eexists _, _. split; [reflexivity|]. simpl. split; [done|]. intros _.
    exists (Store.fresh_id (db w users)), r. rewrite upd_same.
    unfold Store.column in Hr. rewrite Hr.
    split; [done|]. split; [done|]. split; [done|].
    intros r' Hr'. by apply fresh_id_is_fresh.
Qed.

Lemma C10_falsy_id_inserts_witness :
  JS.hasOwn "id" (body Sample.empty_id_registration) = true ∧
  ∃ resp w',
    post_users Sample.env Sample.empty_id_registration Sample.start = (Ret resp, w') ∧
    trace w' =
      [InsertSelectSingle users [VObj [("username", VStr "alice"); ("phone", VUndefined)]]].
Proof.
  split; [reflexivity|].
  destruct (C10_falsy_id_inserts Sample.env Sample.empty_id_registration Sample.start
              eq_refl eq_refl) as (resp & w' & Hrun & Htrace & _).
  by exists resp, w'.
Defined.

(* ===================================================================== *)
(** ** Invariants through handler code *)
(* ===================================================================== *)

Section Preserves.

Context (I : World → Prop).

Lemma preserves_ret {A} (a : A) : preserves I (ret a).
Proof. by intros w. Qed.

Lemma preserves_throw {A} (e : string) : preserves I (@throw A e).
Proof. by intros w. Qed.

Lemma preserves_bind {A B} (m : M A) (f : A → M B) :
  preserves I m → (∀ a, preserves I (f a)) → preserves I (bind m f).
Proof.
  intros Hm Hf w Hw. unfold bind. specialize (Hm w Hw).
  destruct (m w) as [[a|e] w1]; [by apply Hf|done].
Qed.

Lemma preserves_try_catch {A} (m : M A) (h : string → M A) :
  preserves I m → (∀ e, preserves I (h e)) → preserves I (try_catch m h).
Proof.
  intros Hm Hh w Hw. unfold try_catch. specialize (Hm w Hw).
  destruct (m w) as [[a|e] w1]; [done|by apply Hh].
Qed.

Lemma preserves_mapM {A B} (f : A → M B) (l : list A) :
  (∀ a, preserves I (f a)) → preserves I (mapM f l).
Proof.
  intros Hf. induction l as [|a l IH]; simpl; [apply preserves_ret|].
  apply preserves_bind; [done|]. intros b.
  apply preserves_bind; [done|]. intros bs. apply preserves_ret.
Qed.

Lemma preserves_member (k : string) (v : value) : preserves I (member k v).
Proof. unfold member. destruct (JS.nullish v); [apply preserves_throw|apply preserves_ret]. Qed.

Lemma preserves_iterate (v : value) : preserves I (iterate v).
Proof. destruct v; first [apply preserves_throw|apply preserves_ret]. Qed.

Lemma preserves_check (r : Reply) : preserves I (check r).
Proof. unfold check. destruct (error r); [apply preserves_throw|apply preserves_ret]. Qed.

Lemma preserves_pure {A} (o : outcome A) : preserves I (λ w, (o, w)).
Proof. by intros w. Qed.

End Preserves.

(** Walks through handler code, leaving the clock readings and the store
    calls to the caller. *)
Ltac preserve :=
  repeat first
    [ apply preserves_try_catch; [|intros ?]
    | apply preserves_bind; [|intros ?]
    | apply preserves_mapM; intros ?
    | apply preserves_member
    | apply preserves_iterate
    | apply preserves_check
    | apply preserves_ret
    | apply preserves_throw
    | apply preserves_pure
    | match goal with
      | |- preserves _ (if ?b then _ else _) => destruct b
      | |- preserves _ (match ?x with _ => _ end) => destruct x
      end ].

(* ===================================================================== *)
(** ** Consent rows are always given *)
(* ===================================================================== *)

Lemma stored_rows_given (now : Z) (payloads : list value) (existing : list row) :
  Forall Spec.given_true payloads →
  Forall (λ r, Store.column "given" r = VBool true)
         (Store.stored_rows now existing payloads).
Proof.
  intros H. revert existing. induction H as [|p ps Hp _ IH]; intros existing; simpl.
  - constructor.
  - constructor; [|apply IH]. unfold Spec.given_true in Hp.
    destruct p; try done. simpl in Hp. rewrite stored_row_column; by rewrite Hp.
Qed.

Lemma consent_given_newDate (env : Env) : preserves Spec.consent_given (newDate env).
Proof. by intros w. Qed.

Lemma consent_given_store (env : Env) (q : Query) :
  Spec.consent_safe q → preserves Spec.consent_given (store env q).
Proof.
  intros Hq w [Htrace Hdb]. unfold store.
  destruct (store_error env (calls w)) as [e|].
  { split; simpl; [|done]. apply Forall_app. split; [done|by constructor]. }
  destruct (Store.apply (store_now env (calls w)) q (db w)) as [d tables] eqn:Happly.
  split; simpl; [apply Forall_app; split; [done|by constructor]|].
  destruct q as [t rows|t rows|t patch c v|t cols flt order limit];
    simpl in Happly; inversion Happly; subst; clear Happly; try done.
  - destruct (decide (t = consent_logs)) as [->|Hne]; [|by rewrite upd_other].
    rewrite upd_same. apply Forall_app. split; [done|]. by apply stored_rows_given.
  - destruct (decide (t = consent_logs)) as [->|Hne]; [|by rewrite upd_other].
    rewrite upd_same. apply Forall_app. split; [done|]. by apply stored_rows_given.
  - by rewrite upd_other.
Qed.

Lemma consent_given_handle (env : Env) (route : Route) (req : Request) :
  preserves Spec.consent_given (handle env route req).
Proof.
  destruct route; simpl;
    unfold post_users, post_consent, post_report_location, post_report_calls,
           post_report_ip, get_admin_users, get_health, user_entry, call_row,
           on_error, res_json, res_status_json, latest;
    preserve;
    try apply consent_given_newDate;
    try (apply consent_given_store; simpl; try done).
  by repeat constructor.
Qed.

(** C9: every consent row written by the core has [given = true],
    whatever the requests are: if all the consent rows sent to the store and
    all the rows of [consent_logs] have it before a sequence of requests (as
    they do when the server starts on an empty table), they all have it
    afterwards; and no update is ever issued on [consent_logs].  A request
    that carries [given: false] is stored with [given = true]. *)
Theorem C9_consent_always_given (env : Env) (reqs : list (Route * Request)) (w : World) :
  Spec.consent_given w → Spec.consent_given (serve env reqs w).2.
Proof.
  revert w. induction reqs as [|[route req] reqs IH]; intros w Hw; simpl; [done|].
  pose proof (consent_given_handle env route req w Hw) as H1.
  destruct (handle env route req w) as [o w1]. simpl in H1.
  specialize (IH w1 H1). by destruct (serve env reqs w1) as [os w2].
Qed.

Lemma C9_consent_always_given_witness :
  Spec.consent_given Sample.start ∧
  Forall (λ r, Store.column "given" r = VBool true)
    (db (serve Sample.env [(POST_consent, Sample.refusal)] Sample.start).2 consent_logs) ∧
  length (db (serve Sample.env [(POST_consent, Sample.refusal)] Sample.start).2 consent_logs)
    = 1%nat.
Proof.
  assert (Spec.consent_given Sample.start) as H0 by (split; constructor).
  split; [exact H0|]. split; [|reflexivity].
  exact (proj2 (C9_consent_always_given Sample.env [(POST_consent, Sample.refusal)]
                  Sample.start H0)).
Defined.

(* ===================================================================== *)
(** ** Call-log reports *)
(* ===================================================================== *)







(** An element that is [null] makes the callback throw when it reads
    [c.number]: the answer is 500 and no store call is made, although the
    clock has been read for the elements before it. *)
Example null_call_element_throws :
  ∃ resp w',
    post_report_calls Sample.env Sample.null_call Sample.start = (Ret resp, w') ∧
    status resp = 500%nat ∧ trace w' = [] ∧ reads w' = 1%nat.
Proof. eexists _, _. split; [vm_compute; reflexivity|]. by repeat split. Qed.


(* ===================================================================== *)
(** ** Optional fields are defaulted by truthiness *)
(* ===================================================================== *)



(* ===================================================================== *)
(** ** Creation times come from the server *)
(* ===================================================================== *)

Lemma stamped_mono (env : Env) (lo hi hi' : nat) (p : value) :
  (hi ≤ hi')%nat → Spec.stamped env lo hi p → Spec.stamped env lo hi' p.
Proof. intros Hle (k & Hk & Hp). exists k. split; [lia|done]. Qed.

Lemma server_timed_mono (env : Env) (lo hi hi' : nat) (q : Query) :
  (hi ≤ hi')%nat → Spec.server_timed env lo hi q → Spec.server_timed env lo hi' q.
Proof.
  intros Hle. destruct q as [[] rows| | |]; simpl; try done;
    intros H; (eapply Forall_impl; [exact H|]); intros p; by apply stamped_mono.
Qed.

Lemma timed_start (env : Env) (w : World) : Spec.timed env (reads w) (trace w) w.
Proof. split; [done|]. exists []. split; [by rewrite app_nil_r|constructor]. Qed.

Lemma timed_newDate (env : Env) (lo : nat) (tr0 : list Query) :
  preserves (Spec.timed env lo tr0) (newDate env).
Proof.
  intros w (Hlo & new & Htrace & Hnew). split; simpl; [lia|].
  exists new. split; [done|].
  eapply Forall_impl; [exact Hnew|]. intros q. apply server_timed_mono. lia.
Qed.

(** A call that is server-timed whatever the interval keeps the
    invariant. *)
Lemma timed_store (env : Env) (lo : nat) (tr0 : list Query) (q : Query) :
  (∀ hi, Spec.server_timed env lo hi q) →
  preserves (Spec.timed env lo tr0) (store env q).
Proof.
  intros Hq w (Hlo & new & Htrace & Hnew).
  assert (Spec.timed env lo tr0
            {| db := db w; trace := trace w ++ [q]; reads := reads w; calls := S (calls w) |})
    as Hw.
  { split; [done|]. exists (new ++ [q]). simpl. split; [by rewrite Htrace, app_assoc|].
    apply Forall_app. split; [done|]. by constructor. }
  unfold store. destruct (store_error env (calls w)); [done|].
  destruct (Store.apply _ q (db w)) as [d tables].
  destruct Hw as (? & new' & ? & ?). split; [done|]. by exists new'.
Qed.

(** The last steps of the handlers that insert one stamped row. *)
Lemma timed_insert_stamped (env : Env) (t : table) (payload ok : value) (w : World) (k : nat) :
  t ≠ users → t ≠ consent_logs →
  JS.prop "created_at" payload = VDate (Some (clock env k)) →
  (reads w ≤ k < reads (tick 1 w))%nat →
  Spec.timed env (reads w) (trace w)
    (try_catch
       (do r <- store env (Insert t [payload]); do _ <- check r; res_json ok)
       on_error (tick 1 w)).2.
Proof.
  intros Hu Hc Hstamp Hk. unfold try_catch, bind, store. simpl.
  assert (Spec.server_timed env (reads w) (S (reads w)) (Insert t [payload])) as Hq.
  { assert (Spec.stamped env (reads w) (S (reads w)) payload) by (by exists k).
    destruct t; simpl; by repeat constructor. }
  destruct (store_error env (calls w)) as [e|]; simpl;
    (split; simpl; [lia|]; exists [Insert t [payload]]; split; [done|by constructor]).
Qed.

Lemma timed_post_report_location (env : Env) (req : Request) (w : World) :
  Spec.timed env (reads w) (trace w) (post_report_location env req w).2.
Proof.
  unfold post_report_location.
  unfold try_catch at 1. unfold bind at 1, member.
  destruct (JS.nullish (body req)); [apply timed_start|]. unfold ret at 1.
  destruct (negb _ || _ || _); [apply timed_start|].
  apply (timed_insert_stamped env device_locations _ _ w (reads w)); try done.
  simpl. lia.
Qed.

Lemma timed_post_report_ip (env : Env) (req : Request) (w : World) :
  Spec.timed env (reads w) (trace w) (post_report_ip env req w).2.
Proof.
  unfold post_report_ip.
  destruct (IPINFO_TOKEN env) as [token|]; [|apply timed_start].
  destruct (negb (JS.truthy (VStr token))); [apply timed_start|].
  unfold try_catch at 1. unfold bind at 1, member.
  destruct (JS.nullish (body req)); [apply timed_start|]. unfold ret at 1.
  destruct (negb (JS.truthy _)); [apply timed_start|].
  unfold bind at 1.
  destruct (fetch_json env _) as [geo|e]; [|apply timed_start].
  unfold bind at 1. destruct (JS.nullish geo); [apply timed_start|]. unfold ret at 1.
  apply (timed_insert_stamped env ip_locations _ _ w (reads w)); try done.
  simpl. lia.
Qed.

Lemma call_row_cases (env : Env) (user_id c : value) (w : World) :
  (∃ e, call_row env user_id c w = (Throw e, w)) ∨
  call_row env user_id c w = (Ret (call_payload env user_id (reads w) c), tick 1 w).
Proof.
  unfold call_row, bind, member. destruct (JS.nullish c); [left; by eexists|by right].
Qed.

(** Whatever the elements are, the rows that [calls.map] returns are
    stamped with readings taken during the mapping, and the mapping touches
    neither the store nor the trace. *)
Lemma call_rows_stamped (env : Env) (user_id : value) (items : list value)
    (w : World) (o : outcome (list value)) (w1 : World) :
  mapM (call_row env user_id) items w = (o, w1) →
  trace w1 = trace w ∧ db w1 = db w ∧ calls w1 = calls w ∧
  (reads w ≤ reads w1)%nat ∧
  ∀ rows, o = Ret rows → Forall (Spec.stamped env (reads w) (reads w1)) rows.
Proof.
  revert w o w1. induction items as [|c items IH]; intros w o w1; cbn [mapM].
  { intros [= <- <-]. repeat split; try done. intros rows [= <-]. constructor. }
  unfold bind at 1.
  destruct (call_row_cases env user_id c w) as [[e ->]| ->].
  { intros [= <- <-]. by repeat split. }
  unfold bind at 1.
  destruct (mapM (call_row env user_id) items (tick 1 w)) as [[rows|e] w2] eqn:Hrest;
    intros [= <- <-];
    destruct (IH _ _ _ Hrest) as (Htrace & Hdb & Hcalls & Hreads & Hrows); simpl in *.
  - repeat split; try done; [lia|]. intros rows' [= <-]. constructor.
    + exists (reads w). split; [lia|done].
    + eapply Forall_impl; [by apply Hrows|]. intros p (k & Hk & Hp).
      exists k. split; [lia|done].
  - repeat split; try done. lia.
Qed.

Lemma timed_post_report_calls (env : Env) (req : Request) (w : World) :
  Spec.timed env (reads w) (trace w) (post_report_calls env req w).2.
Proof.
  unfold post_report_calls.
  unfold try_catch at 1. unfold bind at 1, member.
  destruct (JS.nullish (body req)); [apply timed_start|]. unfold ret at 1.
  destruct (negb (JS.truthy _) || negb (JS.isArray _)); [apply timed_start|].
  unfold bind at 1.
  destruct (mapM _ (JS.items _) w) as [[rows|e] w1] eqn:Hmap;
    destruct (call_rows_stamped _ _ _ _ _ _ Hmap)
      as (Htrace & Hdb & Hcalls & Hreads & Hrows).
  - specialize (Hrows rows eq_refl). unfold bind, store.
    assert (Spec.server_timed env (reads w) (reads w1) (Insert call_logs rows)) as Hq by done.
    destruct (store_error env (calls w1)) as [e|]; simpl;
      (split; simpl; [lia|]; exists [Insert call_logs rows];
       split; [by rewrite Htrace|by constructor]).
  - split; simpl; [done|]. exists []. split; [by rewrite app_nil_r|constructor].
Qed.

Lemma timed_run {A} (env : Env) (m : M A) (w : World) :
  preserves (Spec.timed env (reads w) (trace w)) m →
  Spec.timed env (reads w) (trace w) (m w).2.
Proof. intros H. apply H, timed_start. Qed.

Lemma timed_handle (env : Env) (route : Route) (req : Request) (w : World) :
  Spec.timed env (reads w) (trace w) (handle env route req w).2.
Proof.
  destruct route; cbn [handle];
    first [ apply timed_post_report_location
          | apply timed_post_report_calls
          | apply timed_post_report_ip
          | apply timed_run ];
    unfold post_users, post_consent, get_admin_users, get_health, user_entry,
           on_error, res_json, res_status_json, latest;
    preserve;
    try apply timed_newDate;
    try (apply timed_store; intros hi; simpl; try done);
    by repeat constructor.
Qed.

(** What the store keeps as [created_at]: the value that the server sent
    when it sent one, its own clock otherwise. *)
Lemma stored_created_at (env : Env) (lo hi : nat) (now : Z) (existing : list row) (p : value) :
  (Spec.stamped env lo hi p →
     Store.column "created_at" (Store.stored_row now existing p) = JS.prop "created_at" p) ∧
  (JS.hasOwn "created_at" p = false →
     Store.column "created_at" (Store.stored_row now existing p) = VDate (Some now)).
Proof.
  split.
  - intros (k & _ & Hk). destruct p; try done. simpl in *.
    rewrite stored_row_column; by rewrite Hk.
  - intros Hp. unfold Store.stored_row.
    assert (Store.has_column "created_at" (Store.sent p) = false) as Hs.
    { destruct p as [| | | | | | |ps]; try done. simpl in Hp.
      unfold Store.has_column, Store.sent.
      induction ps as [|[k v] ps IH]; simpl in *; [done|].
      apply orb_false_iff in Hp as [Hk Hps].
      destruct (Store.defined (k, v)); simpl; [rewrite Hk|]; by apply IH. }
    set (r := if Store.has_column "id" (Store.sent p) then _ else _).
    assert (Store.has_column "created_at" r = false) as Hr.
    { subst r. by destruct (Store.has_column "id" _). }
    rewrite Hr. clear -Hr. unfold Store.column, Store.has_column in *.
    induction r as [|[k v] r IH]; simpl in *; [done|].
    apply orb_false_iff in Hr as [-> Hr]. by apply IH.
Qed.

(** *** A [created_at] sent by the client is never read *)

Lemma lookup_forget_created_at (k : string) (ps : list (string * value)) :
  String.eqb "created_at" k = false →
  JS.lookup_prop k (List.filter (λ p, negb (String.eqb "created_at" p.1)) ps)
    = JS.lookup_prop k ps.
Proof.
  intros Hk. induction ps as [|[k' v] ps IH]; [done|].
  cbn [List.filter JS.lookup_prop fst snd].
  destruct (String.eqb_spec "created_at" k') as [<-|Hne]; cbn [negb JS.lookup_prop].
  - rewrite String.eqb_sym, Hk. apply IH.
  - by rewrite IH.
Qed.

Lemma prop_forget_created_at (k : string) (c : value) :
  String.eqb "created_at" k = false →
  JS.prop k (Spec.forget_created_at c) = JS.prop k c.
Proof. intros Hk. destruct c; try done. by apply lookup_forget_created_at. Qed.

Lemma nullish_forget_created_at (c : value) :
  JS.nullish (Spec.forget_created_at c) = JS.nullish c.
Proof. by destruct c. Qed.

Lemma lookup_forget_calls (k : string) (ps : list (string * value)) :
  JS.lookup_prop k
    (map (λ p, if String.eqb "calls" p.1 then (p.1, Spec.forget_calls p.2) else p) ps)
    = if String.eqb "calls" k then Spec.forget_calls (JS.lookup_prop k ps)
      else JS.lookup_prop k ps.
Proof.
  induction ps as [|[k' v] ps IH]; [by destruct (String.eqb "calls" k)|].
  cbn [map JS.lookup_prop fst snd].
  destruct (String.eqb_spec "calls" k') as [<-|Hne]; cbn [JS.lookup_prop fst snd].
  - destruct (String.eqb_spec k "calls") as [->|Hk].
    + by rewrite String.eqb_refl.
    + by rewrite IH.
  - destruct (String.eqb_spec k k') as [->|Hk]; [|by rewrite IH].
    by destruct (String.eqb_spec "calls" k').
Qed.

Lemma prop_forget (k : string) (b : value) :
  String.eqb "created_at" k = false →
  JS.prop k (Spec.forget b)
    = if String.eqb "calls" k then Spec.forget_calls (JS.prop k b) else JS.prop k b.
Proof.
  intros Hk. destruct b; try (by destruct (String.eqb "calls" k)).
  unfold Spec.forget, Spec.forget_created_at, JS.prop.
  by rewrite lookup_forget_calls, lookup_forget_created_at.
Qed.

Lemma nullish_forget (b : value) : JS.nullish (Spec.forget b) = JS.nullish b.
Proof. by destruct b. Qed.

Lemma call_row_forget (env : Env) (user_id c : value) :
  call_row env user_id (Spec.forget_created_at c) = call_row env user_id c.
Proof.
  unfold call_row, member.
  by rewrite nullish_forget_created_at, !prop_forget_created_at.
Qed.

Lemma call_rows_forget (env : Env) (user_id : value) (items : list value) :
  mapM (call_row env user_id) (map Spec.forget_created_at items)
    = mapM (call_row env user_id) items.
Proof.
  induction items as [|c items IH]; [done|]. cbn [map mapM].
  by rewrite call_row_forget, IH.
Qed.

Lemma handle_forget (env : Env) (route : Route) (req : Request) (w : World) :
  handle env route (with_body req (Spec.forget (body req))) w = handle env route req w.
Proof.
  destruct route; cbn [handle]; try done;
    unfold post_users, post_consent, post_report_location, post_report_calls,
           post_report_ip, member;
    cbn [with_body body];
    change (getClientIp (with_body req (Spec.forget (body req)))) with (getClientIp req);
    rewrite ?nullish_forget, ?prop_forget by reflexivity; cbn [String.eqb Ascii.eqb Bool.eqb];
    try done.
  unfold try_catch, bind.
  destruct (JS.nullish (body req)); [done|]. unfold ret. cbn beta iota.
  destruct (JS.prop "calls" (body req)); try done.
  cbn [Spec.forget_calls JS.isArray JS.items].
  destruct (negb (JS.truthy _) || negb true); [done|]. by rewrite call_rows_forget.
Qed.

(** C4: the [created_at] of every row that the core writes is assigned on
    the server side when the row is written, and never comes from the
    request.  Whatever the request, every row of an insert on
    [device_locations], [call_logs] or [ip_locations] carries a reading of
    the server clock taken while the request was handled; an insert on
    [consent_logs] carries no [created_at], which the store then fills from
    its own clock; and two requests that differ only in the [created_at]
    fields they carry (in the body or in the elements of [calls]) are
    handled alike. *)
Theorem C4_created_at_server_side (env : Env) (route : Route) (req : Request) (w : World) :
  (∃ new, trace (handle env route req w).2 = trace w ++ new ∧
          Forall (Spec.server_timed env (reads w) (reads (handle env route req w).2)) new) ∧
  (∀ req', headers req' = headers req → socket req' = socket req →
     Spec.forget (body req') = Spec.forget (body req) →
     handle env route req' w = handle env route req w) ∧
  (∀ lo hi now existing p,
     (Spec.stamped env lo hi p →
        Store.column "created_at" (Store.stored_row now existing p)
          = JS.prop "created_at" p) ∧
     (JS.hasOwn "created_at" p = false →
        Store.column "created_at" (Store.stored_row now existing p) = VDate (Some now))).
Proof.
  split; [|split].
  - by destruct (timed_handle env route req w) as [_ ?].
  - intros req' Hh Hs Hb.
    rewrite <- (handle_forget env route req), <- (handle_forget env route req').
    unfold with_body. by rewrite Hh, Hs, Hb.
  - intros. apply stored_created_at.
Qed.

Lemma C4_created_at_server_side_witness :
  handle Sample.env POST_report_location Sample.backdated_location Sample.start
    = handle Sample.env POST_report_location Sample.location_report Sample.start.
Proof.
  destruct (C4_created_at_server_side Sample.env POST_report_location
              Sample.location_report Sample.start) as (_ & Hsame & _).
  apply Hsame; reflexivity.
Defined.

(* ===================================================================== *)
(** ** The admin listing *)
(* ===================================================================== *)

#[local] Instance desc_total : Total Store.desc.
Proof. intros [x|] [y|]; simpl; try tauto. lia. Qed.

#[local] Instance desc_trans : Transitive Store.desc.
Proof. intros [x|] [y|] [z|]; simpl; try tauto. lia. Qed.

#[local] Instance desc_refl : Reflexive Store.desc.
Proof. intros [x|]; simpl; [lia|done]. Qed.

#[local] Instance before_total (c : string) : Total (Store.before c).
Proof. intros r1 r2. apply desc_total. Qed.

#[local] Instance before_trans (c : string) : Transitive (Store.before c).
Proof. intros r1 r2 r3. apply desc_trans. Qed.

#[local] Instance before_refl (c : string) : Reflexive (Store.before c).
Proof. intros r. apply desc_refl. Qed.

(** What a select returns: the projection of the newest rows. *)
Lemma select_newest_first (rows : list row) (cols : option (list string))
    (flt : option (string * value)) (order : string) (limit : nat) :
  ∃ page, Store.select rows cols flt order limit = map (Store.project cols) page ∧
          Spec.newest_first order limit (Store.selected rows flt) page.
Proof.
  unfold Store.select.
  set (sorted := merge_sort (Store.before order) (Store.selected rows flt)).
  exists (take limit sorted). split; [done|].
  exists (drop limit sorted). rewrite take_drop.
  split; [apply merge_sort_Permutation|].
  split; [apply StronglySorted_merge_sort; apply _|].
  rewrite length_take. f_equal.
  apply Permutation_length, merge_sort_Permutation.
Qed.

Lemma newest_first_length (c : string) (n : nat) (rows page : list row) :
  Spec.newest_first c n rows page → (length page ≤ n)%nat.
Proof. intros (_ & _ & _ & ->). lia. Qed.

(** The newest row, as [loc?.[0] || null] extracts it. *)
Lemma newest_first_latest (c : string) (rows page : list row) :
  Spec.newest_first c 1 rows page →
  Spec.latest_row c rows (JS.or (first_item (VArr (map VObj page))) VNull).
Proof.
  intros (rest & Hperm & Hsorted & Hlen). unfold Spec.latest_row.
  destruct rows as [|r0 rows].
  { destruct page; [done|]. simpl in Hlen. lia. }
  destruct page as [|r page]; [simpl in Hlen; lia|].
  simpl. exists r. split; [done|].
  assert (∀ r', r' ∈ r :: page ++ rest ↔ r' ∈ r0 :: rows) as Hin.
  { intros r'. by rewrite <- Hperm. }
  split; [apply Hin; left|].
  intros r' Hr'. apply Hin in Hr'. simpl in Hsorted.
  apply StronglySorted_inv in Hsorted as [_ Hall].
  apply elem_of_cons in Hr' as [->|Hr']; [reflexivity|].
  by eapply Forall_forall in Hall.
Qed.

Lemma store_answers (env : Env) (w : World) (t : table) (cols : option (list string))
    (flt : option (string * value)) (order : string) (limit : nat) :
  store_error env (calls w) = None →
  store env (Select t cols flt order limit) w =
    (Ret {| data := VArr (map VObj (Store.select (db w t) cols flt order limit));
            error := None |},
     answered [Select t cols flt order limit] w).
Proof. intros H. by rewrite store_accepts. Qed.

Lemma answered_app (qs qs' : list Query) (w : World) :
  answered qs' (answered qs w) = answered (qs ++ qs') w.
Proof.
  unfold answered. simpl. f_equal; [by rewrite app_assoc|].
  rewrite length_app. lia.
Qed.

Lemma user_entry_run (env : Env) (u : value) (w : World) :
  JS.nullish u = false →
  (∀ k, (calls w ≤ k)%nat → store_error env k = None) →
  user_entry env u w = (Ret (snapshot (db w) u), answered (asked (JS.prop "id" u)) w).
Proof.
  intros Hu Hok. unfold user_entry, bind, latest.
  rewrite member_ok by done.
  rewrite store_answers by (apply Hok; lia).
  rewrite store_answers by (apply Hok; simpl; lia).
  rewrite store_answers by (apply Hok; simpl; lia).
  rewrite store_answers by (apply Hok; simpl; lia).
  rewrite !answered_app. done.
Qed.

Lemma user_entries_run (env : Env) (us : list value) (w : World) :
  Forall (λ u, JS.nullish u = false) us →
  (∀ k, (calls w ≤ k)%nat → store_error env k = None) →
  mapM (user_entry env) us w =
    (Ret (map (snapshot (db w)) us),
     answered (concat (map (λ u, asked (JS.prop "id" u)) us)) w).
Proof.
  intros Hus. revert w. induction Hus as [|u us Hu _ IH]; intros w Hok.
  - simpl. unfold ret, answered. simpl. rewrite app_nil_r. by destruct w.
  - cbn [mapM]. unfold bind at 1. rewrite user_entry_run by done.
    unfold bind at 1. rewrite IH by (intros k Hk; apply Hok; simpl in Hk; lia).
    unfold ret. by rewrite answered_app.
Qed.

(** The entry of one user, in the terms of the specification. *)
Lemma snapshot_latest (d : table → list row) (u : row) :
  ∃ ll li cs,
    snapshot d (VObj u) =
      VObj [("user", VObj u); ("last_location", ll); ("last_ip", li);
            ("calls", VArr (map VObj cs))] ∧
    Spec.latest_row "created_at" (Spec.rows_of d device_locations (Store.column "id" u)) ll ∧
    Spec.latest_row "created_at" (Spec.rows_of d ip_locations (Store.column "id" u)) li ∧
    Spec.newest_first "started_at" 10 (Spec.rows_of d call_logs (Store.column "id" u)) cs ∧
    (length cs ≤ 10)%nat.
Proof.
  unfold snapshot. cbn [JS.prop].
  destruct (select_newest_first (d device_locations) None
              (Some ("user_id", JS.lookup_prop "id" u)) "created_at" 1) as (pl & -> & Hl).
  destruct (select_newest_first (d ip_locations) None
              (Some ("user_id", JS.lookup_prop "id" u)) "created_at" 1) as (pi & -> & Hi).
  destruct (select_newest_first (d call_logs) None
              (Some ("user_id", JS.lookup_prop "id" u)) "started_at" 10) as (pc & -> & Hc).
  cbn [Store.project]. rewrite !map_id.
  eexists _, _, pc. split; [reflexivity|].
  split; [by apply newest_first_latest|]. split; [by apply newest_first_latest|].
  split; [done|]. by eapply newest_first_length.
Qed.

(** C5, as stated, fails for a call that is answered with success while
    one of its per-user store calls failed: the handler does not look at
    the [error] of these calls, so when the store fails the call for the
    location rows the answer is still 200 and [last_location] is [null],
    although the user has location rows. *)
Lemma C5_failed_query_reported_as_null :
  ∃ w' u li cs,
    get_admin_users Sample.flaky_env (Sample.request VUndefined) Sample.located =
      (Ret {| status := 200;
              json :=
                VObj [("ok", VBool true);
                      ("results",
                       VArr [VObj [("user", u); ("last_location", VNull);
                                   ("last_ip", li); ("calls", cs)]])] |}, w') ∧
    JS.prop "id" u = VStr "u1" ∧
    length (Spec.rows_of (db Sample.located) device_locations (VStr "u1")) = 2%nat ∧
    ¬ Spec.latest_row "created_at"
        (Spec.rows_of (db Sample.located) device_locations (VStr "u1")) VNull.
Proof.
  eexists _, _, _, _. split; [vm_compute; reflexivity|].
  split; [reflexivity|]. split; [reflexivity|].
  intros H. vm_compute in H. by destruct H as (r & Hr & _).
Qed.

(** C5 (amended): for every GET /admin/users call whose store calls all succeed,
    the result holds at most 200 users, the newest by registration first,
    and for each user: [last_location] is the user's device-location row
    with the greatest [created_at] (with rows at times t1 < t2, the row at
    t2) or [null] when the user has none, [last_ip] likewise among the
    user's ip-location rows, and [calls] holds at most 10 of the user's
    call-log rows, those that come first in descending order of
    [started_at]. *)
Theorem C5_admin_users (env : Env) (req : Request) (w : World) :
  (∀ k, (calls w ≤ k)%nat → store_error env k = None) →
  ∃ page results w',
    get_admin_users env req w =
      (Ret {| status := 200;
              json := VObj [("ok", VBool true); ("results", VArr results)] |}, w') ∧
    db w' = db w ∧
    Spec.newest_first "created_at" 200 (db w users) page ∧
    (length results ≤ 200)%nat ∧
    Forall2
      (λ urow res,
         let u := Store.project (Some ["id"; "username"; "phone"; "created_at"]) urow in
         ∃ ll li cs,
           res = VObj [("user", VObj u); ("last_location", ll); ("last_ip", li);
                       ("calls", VArr (map VObj cs))] ∧
           Spec.latest_row "created_at"
             (Spec.rows_of (db w) device_locations (Store.column "id" u)) ll ∧
           Spec.latest_row "created_at"
             (Spec.rows_of (db w) ip_locations (Store.column "id" u)) li ∧
           Spec.newest_first "started_at" 10
             (Spec.rows_of (db w) call_logs (Store.column "id" u)) cs ∧
           (length cs ≤ 10)%nat)
      page results.
Proof.
  intros Hok. unfold get_admin_users, try_catch, bind.
  rewrite store_answers by (apply Hok; lia). cbn [data iterate ret].
  destruct (select_newest_first (db w users) (Some ["id"; "username"; "phone"; "created_at"])
              None "created_at" 200) as (page & -> & Hpage).
  rewrite user_entries_run; cycle 1.
  { rewrite !Forall_map. by apply Forall_true. }
  { intros k Hk. apply Hok. simpl in Hk. lia. }
  unfold res_json, ret.
  eexists page, _, _. split; [reflexivity|]. split; [done|]. split; [done|].
  split.
  { rewrite !length_map. by eapply newest_first_length. }
  cbn [answered db]. clear.
  induction page as [|urow page IH]; cbn [map]; constructor; [|done].
  cbn zeta. apply snapshot_latest.
Qed.

Lemma C5_admin_users_witness :
  ∃ results w',
    get_admin_users Sample.env (Sample.request VUndefined) Sample.located =
      (Ret {| status := 200;
              json := VObj [("ok", VBool true); ("results", VArr results)] |}, w') ∧
    (length results ≤ 200)%nat.
Proof.
  destruct (C5_admin_users Sample.env (Sample.request VUndefined) Sample.located)
    as (page & results & w' & Hrun & _ & _ & Hlen & _).
  - reflexivity.
  - by exists results, w'.
Defined.

(** On the tables of [Sample.located], where the user has location rows
    at the times 100 and 200, the row at 200 is reported. *)
Example admin_reports_latest_location :
  ∃ w' u li cs,
    get_admin_users Sample.env (Sample.request VUndefined) Sample.located =
      (Ret {| status := 200;
              json :=
                VObj [("ok", VBool true);
                      ("results",
                       VArr [VObj [("user", u);
                                   ("last_location",
                                    VObj [("id", VStr "l2"); ("user_id", VStr "u1");
                                          ("latitude", VNum 2); ("longitude", VNum 2);
                                          ("created_at", VDate (Some 200))]);
                                   ("last_ip", li); ("calls", cs)]])] |}, w').
Proof. eexists _, _, _, _. vm_compute. reflexivity. Qed.

(* ===================================================================== *)
(** ** Every request is answered *)
(* ===================================================================== *)

Section Returns.

Context {A : Type} (P : A → Prop).

Lemma returns_ret (a : A) : P a → returns P (ret a).
Proof. by intros H w. Qed.

Lemma returns_throw (e : string) : returns P (throw e).
Proof. by intros w. Qed.

Lemma returns_bind {B} (m : M B) (f : B → M A) :
  (∀ b, returns P (f b)) → returns P (bind m f).
Proof.
  intros Hf w. unfold bind. destruct (m w) as [[b|e] w1]; [apply Hf|done].
Qed.

Lemma returns_try_catch (m : M A) (h : string → M A) :
  returns P m → (∀ e, returns P (h e)) → returns P (try_catch m h).
Proof.
  intros Hm Hh w. unfold try_catch. specialize (Hm w).
  destruct (m w) as [[a|e] w1]; [done|apply Hh].
Qed.

End Returns.

Ltac returning :=
  repeat first
    [ apply returns_try_catch; [|intros ?]
    | apply returns_bind; intros ?
    | apply returns_throw
    | match goal with
      | |- returns _ (if ?b then _ else _) => destruct b
      | |- returns _ (match ?x with _ => _ end) => destruct x
      end ];
  try apply returns_ret.

Ltac handlers :=
  unfold post_users, post_consent, post_report_location, post_report_calls,
         post_report_ip, get_admin_users, get_health, on_error, res_json, res_status_json.

Lemma handler_returns (env : Env) (route : Route) (req : Request) :
  route ≠ GET_health → returns well_formed (handle env route req).
Proof.
  intros Hroute. destruct route; cbn [handle]; try done; handlers; returning;
    first [ by left | right; split; [by right|by eexists] | right; split; [by left|by eexists] ].
Qed.

Lemma try_catch_answers (m : M Response) (w : World) :
  ∃ resp, (try_catch m on_error w).1 = Ret resp.
Proof.
  unfold try_catch. destruct (m w) as [[r|e] w1]; by eexists.
Qed.

(** Every request that reaches a route handler is answered by it,
    whatever the parsed body ([req.body] as the JSON parser of line 10
    leaves it, [undefined] included), the store and the provider do: no
    exception escapes a handler, and the handler's answer is either 200 with
    [ok: true] or 400 or 500 with [ok: false] and a message.  A request
    whose body the parser of line 10 refuses (text that is not JSON, more
    than 200kb) is answered by the parser and reaches no handler: it is
    outside this statement. *)
Theorem handlers_always_answer (env : Env) (route : Route) (req : Request) (w : World) :
  ∃ resp, (handle env route req w).1 = Ret resp ∧ well_formed resp.
Proof.
  assert (route = GET_health ∨ route ≠ GET_health) as [->|Hroute]
    by (destruct route; auto).
  { eexists. split; [reflexivity|]. by left. }
  pose proof (handler_returns env route req Hroute w) as Hwf.
  assert (∃ resp, (handle env route req w).1 = Ret resp) as [resp Hresp].
  { destruct route; try done; apply try_catch_answers. }
  exists resp. split; [done|]. by rewrite Hresp in Hwf.
Qed.

(* ===================================================================== *)
(** ** A rejected request has no effect *)
(* ===================================================================== *)

Lemma quiet_ret (r : Response) : quiet (ret r).
Proof. by intros w. Qed.

Lemma quiet_bind_member (k : string) (v : value) (f : value → M Response) :
  (∀ a, quiet (f a)) → quiet (bind (member k v) f).
Proof.
  intros Hf w. unfold bind, member. destruct (JS.nullish v); [done|]. apply Hf.
Qed.

Lemma quiet_try_catch (m : M Response) : quiet m → quiet (try_catch m on_error).
Proof.
  intros Hm w. unfold try_catch. specialize (Hm w).
  destruct (m w) as [[r|e] w1]; [done|]. by intros [=].
Qed.

Lemma quiet_of_returns (m : M Response) :
  returns (λ r, status r ≠ 400%nat) m → quiet m.
Proof.
  intros Hm w. specialize (Hm w). by destruct (m w) as [[r|e] w1].
Qed.

Ltac quieting :=
  repeat first
    [ apply quiet_try_catch
    | apply quiet_bind_member; intros ?
    | apply quiet_ret
    | match goal with
      | |- quiet (if ?b then _ else _) => destruct b
      | |- quiet (match ?x with _ => _ end) => destruct x
      end
    | (apply quiet_of_returns; returning; by simpl) ].

Lemma handler_quiet (env : Env) (route : Route) (req : Request) :
  quiet (handle env route req).
Proof. destruct route; cbn [handle]; handlers; quieting. Qed.

(** A request that is answered 400 has had no effect at all: validation
    comes before the first clock reading and the first store call, so the
    tables, the trace and the counters are those found. *)
Theorem rejected_request_has_no_effect (env : Env) (route : Route) (req : Request)
    (w : World) (resp : Response) (w' : World) :
  handle env route req w = (Ret resp, w') → status resp = 400%nat → w' = w.
Proof.
  intros Hrun Hstatus. pose proof (handler_quiet env route req w) as Hq.
  rewrite Hrun in Hq. by apply Hq.
Qed.

Lemma rejected_request_has_no_effect_witness :
  (handle Sample.env POST_report_location Sample.empty_user_location Sample.start).2
    = Sample.start.
Proof.
  eapply (rejected_request_has_no_effect Sample.env POST_report_location
            Sample.empty_user_location Sample.start); reflexivity.
Defined.

(* ===================================================================== *)
(** ** One store call per write, and what becomes of its error *)
(* ===================================================================== *)

Lemma write_run_failed (env : Env) (w w0 : World) (resp : Response) :
  trace w0 = trace w → db w0 = db w → calls w0 = calls w →
  status resp ≠ 200%nat →
  ends env w (Ret resp, w0).
Proof. intros. left. repeat split; try done. by exists resp. Qed.

(** The last steps of a writing handler: the store call, the check of
    its error and the answer. *)
Lemma write_tail (env : Env) (q : Query) (k : Reply → M Response) (w w0 : World) :
  trace w0 = trace w → db w0 = db w → calls w0 = calls w →
  (∀ w1, ∃ resp,
     k {| data := (Store.apply (store_now env (calls w)) q (db w)).1; error := None |} w1
       = (Ret resp, w1) ∧ status resp = 200%nat) →
  ends env w (try_catch (do r <- store env q; do _ <- check r; k r) on_error w0).
Proof.
  intros Htrace Hdb Hcalls Hk. right. exists q.
  unfold try_catch, bind, store. rewrite Hcalls, Hdb.
  destruct (store_error env (calls w)) as [e|]; simpl.
  { by rewrite Htrace. }
  destruct (Store.apply (store_now env (calls w)) q (db w)) as [d tables] eqn:Happly.
  simpl in *.
  destruct (Hk {| db := tables; trace := trace w0 ++ [q]; reads := reads w0;
                 calls := S (calls w) |}) as (resp & -> & Hstatus).
  simpl. rewrite Htrace. repeat split; try done. by exists resp.
Qed.

Lemma write_run_post_consent (env : Env) (req : Request) (w : World) :
  ends env w (post_consent env req w).
Proof.
  unfold post_consent. unfold try_catch at 1. unfold bind at 1, member.
  destruct (JS.nullish (body req)); [by apply write_run_failed|]. unfold ret at 1.
  destruct (negb _ || negb _); [by apply write_run_failed|].
  apply write_tail; try done. intros w1. by eexists.
Qed.

Lemma write_run_post_users (env : Env) (req : Request) (w : World) :
  ends env w (post_users env req w).
Proof.
  unfold post_users. unfold try_catch at 1. unfold bind at 1, member.
  destruct (JS.nullish (body req)); [by apply write_run_failed|]. unfold ret at 1.
  destruct (JS.truthy _).
  - apply write_tail; try done. intros w1. by eexists.
  - apply (write_tail env _
             (λ r, do new_id <- member "id" (data r);
                   res_json (VObj [("ok", VBool true); ("id", new_id); ("user", data r)])));
      try done.
    intros w1. by eexists.
Qed.

Lemma write_run_post_report_location (env : Env) (req : Request) (w : World) :
  ends env w (post_report_location env req w).
Proof.
  unfold post_report_location. unfold try_catch at 1. unfold bind at 1, member.
  destruct (JS.nullish (body req)); [by apply write_run_failed|]. unfold ret at 1.
  destruct (negb _ || _ || _); [by apply write_run_failed|].
  apply (write_tail env _ _ w (tick 1 w)); try done. intros w1. by eexists.
Qed.

Lemma write_run_post_report_ip (env : Env) (req : Request) (w : World) :
  ends env w (post_report_ip env req w).
Proof.
  unfold post_report_ip.
  destruct (IPINFO_TOKEN env) as [token|]; [|by apply write_run_failed].
  destruct (negb (JS.truthy (VStr token))); [by apply write_run_failed|].
  unfold try_catch at 1. unfold bind at 1, member.
  destruct (JS.nullish (body req)); [by apply write_run_failed|]. unfold ret at 1.
  destruct (negb (JS.truthy _)); [by apply write_run_failed|].
  unfold bind at 1.
  destruct (fetch_json env _) as [geo|e]; [|by apply write_run_failed].
  unfold bind at 1. destruct (JS.nullish geo); [by apply write_run_failed|].
  unfold ret at 1.
  apply (write_tail env _ _ w (tick 1 w)); try done. intros w1. by eexists.
Qed.

Lemma write_run_post_report_calls (env : Env) (req : Request) (w : World) :
  ends env w (post_report_calls env req w).
Proof.
  unfold post_report_calls. unfold try_catch at 1. unfold bind at 1, member.
  destruct (JS.nullish (body req)); [by apply write_run_failed|]. unfold ret at 1.
  destruct (negb (JS.truthy _) || negb (JS.isArray _)); [by apply write_run_failed|].
  unfold bind at 1.
  destruct (mapM _ (JS.items _) w) as [[rows|e] w1] eqn:Hmap;
    destruct (call_rows_stamped _ _ _ _ _ _ Hmap) as (Htrace & Hdb & Hcalls & _).
  - apply (write_tail env _ (λ _, res_json _) w w1); try done. intros w2. by eexists.
  - by apply write_run_failed.
Qed.

Lemma write_run_handle (env : Env) (route : Route) (req : Request) (w : World) :
  is_post route = true →
  ends env w (handle env route req w).
Proof.
  intros Hpost. destruct route; try done; cbn [handle];
    auto using write_run_post_users, write_run_post_consent,
      write_run_post_report_location, write_run_post_report_calls,
      write_run_post_report_ip.
Qed.

(** A writing request makes at most one store call, with no retry
    whatever the store answers, and it is answered 200 exactly when it made
    a call that the store accepted. *)
Theorem post_makes_one_store_call (env : Env) (route : Route) (req : Request) (w : World) :
  is_post route = true →
  ∃ resp w',
    handle env route req w = (Ret resp, w') ∧
    (trace w' = trace w ∧ calls w' = calls w ∨
     ∃ q, trace w' = trace w ++ [q] ∧ calls w' = S (calls w)) ∧
    (status resp = 200%nat ↔
       (∃ q, trace w' = trace w ++ [q]) ∧ store_error env (calls w) = None).
Proof.
  intros Hpost. pose proof (write_run_handle env route req w Hpost) as Hrun.
  unfold ends in Hrun. destruct (handle env route req w) as [o w']. simpl in Hrun.
  destruct Hrun as [(Htrace & _ & Hcalls & resp & -> & Hstatus)|(q & Htrace & Hcalls & Hq)].
  - exists resp, w'. split; [done|]. split; [by left|].
    split; [done|]. intros [[q Hq] _]. rewrite Htrace in Hq.
    apply (f_equal length) in Hq. rewrite length_app in Hq. simpl in Hq. lia.
  - destruct (store_error env (calls w)) as [e|].
    + destruct Hq as [-> _]. eexists _, w'. split; [done|].
      split; [right; by exists q|]. split; [done|]. by intros [_ ?].
    + destruct Hq as [(resp & -> & Hstatus) _]. exists resp, w'. split; [done|].
      split; [right; by exists q|]. split; [|done]. intros _. split; [by exists q|done].
Qed.

Lemma post_makes_one_store_call_witness :
  ∃ resp w',
    handle Sample.env POST_consent Sample.consent Sample.start = (Ret resp, w') ∧
    (trace w' = trace Sample.start ∧ calls w' = calls Sample.start ∨
     ∃ q, trace w' = trace Sample.start ++ [q] ∧ calls w' = S (calls Sample.start)).
Proof.
  destruct (post_makes_one_store_call Sample.env POST_consent Sample.consent Sample.start
              eq_refl) as (resp & w' & Hrun & Hcount & _).
  by exists resp, w'.
Defined.

(** When the store reports an error to the call of a writing request, the
    answer is 500 with the store's own message as [error], and no table has
    changed. *)
Theorem store_error_is_reported (env : Env) (route : Route) (req : Request) (w : World)
    (e : string) :
  is_post route = true →
  store_error env (calls w) = Some e →
  trace (handle env route req w).2 ≠ trace w →
  (handle env route req w).1 = Ret {| status := 500; json := failure e |} ∧
  db (handle env route req w).2 = db w.
Proof.
  intros Hpost Herr Hcalled. pose proof (write_run_handle env route req w Hpost) as Hrun.
  unfold ends in Hrun. destruct Hrun as [(Htrace & _)|(q & _ & _ & Hq)]; [done|].
  by rewrite Herr in Hq.
Qed.

Lemma store_error_is_reported_witness :
  (handle Sample.flaky_env POST_consent Sample.consent Sample.once).1
    = Ret {| status := 500; json := failure "connection reset" |} ∧
  db (handle Sample.flaky_env POST_consent Sample.consent Sample.once).2 = db Sample.once.
Proof.
  apply (store_error_is_reported Sample.flaky_env POST_consent Sample.consent Sample.once
           "connection reset"); [reflexivity|reflexivity|].
  vm_compute. discriminate.
Defined.

(* ===================================================================== *)
(** ** Reads change nothing, writes only add *)
(* ===================================================================== *)

Lemma read_only_start (w : World) : read_only (db w) (trace w) w.
Proof. split; [done|]. exists []. split; [by rewrite app_nil_r|constructor]. Qed.

Lemma read_only_newDate (env : Env) (d0 : table → list row) (tr0 : list Query) :
  preserves (read_only d0 tr0) (newDate env).
Proof. by intros w. Qed.

Lemma read_only_store (env : Env) (d0 : table → list row) (tr0 : list Query) (q : Query) :
  is_select q → preserves (read_only d0 tr0) (store env q).
Proof.
  intros Hq w (Hdb & new & Htrace & Hnew). destruct q; try done.
  unfold store. destruct (store_error env (calls w)); simpl;
    (split; simpl; [done|]; exists (new ++ [Select t cols filter order limit]);
     split; [by rewrite Htrace, app_assoc|];
     apply Forall_app; split; [done|by constructor]).
Qed.

(** The two GET routes are read-only, whatever the store answers: no
    table changes, and the only store calls issued are selects. *)
Theorem get_routes_are_read_only (env : Env) (route : Route) (req : Request) (w : World) :
  is_post route = false →
  db (handle env route req w).2 = db w ∧
  ∃ new, trace (handle env route req w).2 = trace w ++ new ∧ Forall is_select new.
Proof.
  intros Hroute.
  assert (preserves (read_only (db w) (trace w)) (handle env route req)) as Hp.
  { destruct route; try done; cbn [handle]; handlers; unfold user_entry, latest;
      preserve; try apply read_only_newDate; by apply read_only_store. }
  apply Hp, read_only_start.
Qed.

Lemma get_routes_are_read_only_witness :
  db (handle Sample.env GET_admin_users (Sample.request VUndefined) Sample.located).2
    = db Sample.located.
Proof.
  apply (get_routes_are_read_only Sample.env GET_admin_users (Sample.request VUndefined)
           Sample.located). reflexivity.
Defined.

Lemma grown_start (w : World) : grown (db w) w.
Proof. split; [done|lia]. Qed.

Lemma grown_newDate (env : Env) (d0 : table → list row) :
  preserves (grown d0) (newDate env).
Proof. by intros w. Qed.

Lemma grown_store (env : Env) (d0 : table → list row) (q : Query) :
  keeps_rows q → preserves (grown d0) (store env q).
Proof.
  intros Hq w [Hsig Husers]. unfold store.
  destruct (store_error env (calls w)); [done|].
  destruct (Store.apply (store_now env (calls w)) q (db w)) as [d tables] eqn:Happly.
  assert (∀ t new, grown d0 {| db := Store.upd t (db w t ++ new) (db w);
                               trace := trace w ++ [q]; reads := reads w;
                               calls := S (calls w) |}) as Happ.
  { intros t new. split; simpl.
    - intros t' Ht'. destruct (decide (t = t')) as [->|Hne].
      + rewrite upd_same. etrans; [by apply Hsig|]. by apply prefix_app_r.
      + rewrite upd_other by done. by apply Hsig.
    - destruct (decide (t = users)) as [->|Hne].
      + rewrite upd_same, length_app. lia.
      + by rewrite upd_other. }
  destruct q as [t rows|t rows|t patch c v|t cols flt order limit];
    simpl in Happly; inversion Happly; subst; clear Happly; try apply Happ.
  - simpl in Hq. subst t. split; simpl.
    + intros t' Ht'. rewrite upd_other by done. by apply Hsig.
    + by rewrite upd_same, length_map.
  - by split.
Qed.

Lemma grown_handle (env : Env) (d0 : table → list row) (route : Route) (req : Request) :
  preserves (grown d0) (handle env route req).
Proof.
  destruct route; cbn [handle]; handlers; unfold user_entry, call_row, latest;
    preserve; try apply grown_newDate; by apply grown_store.
Qed.

(** Over any sequence of requests, the tables of consent, locations, call
    logs and IP locations are append-only (what they held is still there, in
    place, followed by the new rows) and no user row is ever removed. *)
Theorem signal_tables_are_append_only (env : Env) (reqs : list (Route * Request))
    (w : World) :
  (∀ t, t ≠ users →
        ∃ new, db (serve env reqs w).2 t = db w t ++ new) ∧
  (length (db w users) ≤ length (db (serve env reqs w).2 users))%nat.
Proof.
  assert (grown (db w) (serve env reqs w).2) as [Hsig Husers].
  { generalize (grown_start w). generalize (db w) as d0. revert w.
    induction reqs as [|[route req] reqs IH]; intros w d0 Hw; simpl; [done|].
    pose proof (grown_handle env d0 route req w Hw) as H1.
    destruct (handle env route req w) as [o w1]. simpl in H1.
    specialize (IH w1 d0 H1). by destruct (serve env reqs w1) as [os w2]. }
  split; [|done]. intros t Ht. by apply Hsig.
Qed.

(* ===================================================================== *)
(** ** The admin listing: its calls and its first failure *)
(* ===================================================================== *)

Lemma asked_length (us : list value) :
  length (concat (map (λ u, asked (JS.prop "id" u)) us)) = (4 * length us)%nat.
Proof. induction us as [|u us IH]; simpl; [done|]. rewrite IH. lia. Qed.

(** When the store answers, the listing of n users costs 1 + 4 n store
    calls: the page of users, then for each user her locations, her IP
    locations, her calls and her IP locations again. *)
Theorem admin_listing_issues_four_calls_per_user (env : Env) (req : Request) (w : World) :
  (∀ k, (calls w ≤ k)%nat → store_error env k = None) →
  ∃ results w',
    get_admin_users env req w =
      (Ret {| status := 200;
              json := VObj [("ok", VBool true); ("results", VArr results)] |}, w') ∧
    calls w' = (1 + 4 * length results + calls w)%nat ∧
    trace w' = trace w ++
      Select users (Some ["id"; "username"; "phone"; "created_at"]) None "created_at" 200 ::
      concat (map (λ res, let uid := JS.prop "id" (JS.prop "user" res) in
                          [Select device_locations None (Some ("user_id", uid)) "created_at" 1;
                           Select ip_locations None (Some ("user_id", uid)) "created_at" 1;
                           Select call_logs None (Some ("user_id", uid)) "started_at" 10;
                           Select ip_locations None (Some ("user_id", uid)) "created_at" 1])
                  results).
Proof.
  intros Hok. unfold get_admin_users, try_catch, bind.
  rewrite store_answers by (apply Hok; lia). cbn [data iterate ret].
  rewrite user_entries_run; cycle 1.
  { rewrite Forall_map. by apply Forall_true. }
  { intros k Hk. apply Hok. simpl in Hk. lia. }
  unfold res_json, ret. eexists _, _. split; [reflexivity|].
  rewrite answered_app. cbn [answered calls trace]. split.
  - rewrite length_app, asked_length, !length_map. simpl. lia.
  - cbn [app]. do 2 f_equal. by rewrite !map_map.
Qed.

Lemma admin_listing_issues_four_calls_per_user_witness :
  ∃ results w',
    get_admin_users Sample.env (Sample.request VUndefined) Sample.located =
      (Ret {| status := 200;
              json := VObj [("ok", VBool true); ("results", VArr results)] |}, w') ∧
    calls w' = (1 + 4 * length results + calls Sample.located)%nat.
Proof.
  destruct (admin_listing_issues_four_calls_per_user Sample.env (Sample.request VUndefined)
              Sample.located) as (results & w' & Hrun & Hcalls & _).
  - reflexivity.
  - by exists results, w'.
Defined.

(** When the store fails the query for the page of users, the listing is
    answered 500 after that single call, and the answer is the same
    whatever the store's message was: the message is not reported. *)
Theorem admin_listing_fails_on_users_query (env env' : Env) (req : Request) (w : World)
    (e e' : string) :
  store_error env (calls w) = Some e →
  store_error env' (calls w) = Some e' →
  (∃ message,
     (get_admin_users env req w).1 = Ret {| status := 500; json := failure message |}) ∧
  (get_admin_users env req w).1 = (get_admin_users env' req w).1 ∧
  trace (get_admin_users env req w).2 = trace w ++
    [Select users (Some ["id"; "username"; "phone"; "created_at"]) None "created_at" 200] ∧
  db (get_admin_users env req w).2 = db w.
Proof.
  intros He He'. unfold get_admin_users, try_catch, bind.
  rewrite (store_rejects env _ _ e), (store_rejects env' _ _ e') by done.
  simpl. split; [by eexists|done].
Qed.

Lemma admin_listing_fails_on_users_query_witness :
  ∃ message,
    (get_admin_users Sample.flaky_env (Sample.request VUndefined) Sample.once).1
      = Ret {| status := 500; json := failure message |}.
Proof.
  destruct (admin_listing_fails_on_users_query Sample.flaky_env Sample.flaky_env
              (Sample.request VUndefined) Sample.once "connection reset" "connection reset"
              eq_refl eq_refl) as [Hfail _].
  exact Hfail.
Defined.

(* ===================================================================== *)
(** ** Registration: the update path *)
(* ===================================================================== *)

Lemma column_set_same (c : string) (v : value) (r : row) :
  Store.column c (Store.set_column c v r) = v.
Proof.
  unfold Store.column. induction r as [|[k x] r IH]; cbn [Store.set_column JS.lookup_prop].
  - by rewrite String.eqb_refl.
  - destruct (String.eqb_spec c k) as [->|Hne]; cbn [JS.lookup_prop].
    + by rewrite String.eqb_refl.
    + destruct (String.eqb_spec c k); [done|]. apply IH.
Qed.

Lemma column_set_other (c c' : string) (v : value) (r : row) :
  c ≠ c' → Store.column c' (Store.set_column c v r) = Store.column c' r.
Proof.
  intros Hne. unfold Store.column.
  induction r as [|[k x] r IH]; cbn [Store.set_column JS.lookup_prop].
  - destruct (String.eqb_spec c' c); [congruence|done].
  - destruct (String.eqb_spec c k) as [->|Hck]; cbn [JS.lookup_prop].
    + destruct (String.eqb_spec c' k); [congruence|done].
    + destruct (String.eqb_spec c' k); [done|apply IH].
Qed.

(** What the update of [{ username, phone }] does to a row: a field that
    was sent replaces the column with its JSON form, a field that was not
    sent ([undefined]) leaves it, and no other column changes. *)
Lemma patch_user_columns (username phone : value) (r : row) :
  let r' := Store.patch_row
              (Store.sent (VObj [("username", username); ("phone", phone)])) r in
  Store.column "username" r' = sent_or username (Store.column "username" r) ∧
  Store.column "phone" r' = sent_or phone (Store.column "phone" r) ∧
  ∀ c, c ≠ "username" → c ≠ "phone" → Store.column c r' = Store.column c r.
Proof.
  unfold Store.patch_row, Store.sent.
  destruct username, phone;
    cbn [List.filter Store.defined snd fst fold_left map];
    (split; [|split];
     [ rewrite ?column_set_same, ?column_set_other, ?column_set_same by done; done
     | rewrite ?column_set_same, ?column_set_other, ?column_set_same by done; done
     | intros c H1 H2; rewrite ?column_set_other by done; done ]).
Qed.

Lemma update_run (env : Env) (req : Request) (w : World) :
  JS.truthy (JS.prop "id" (body req)) = true →
  store_error env (calls w) = None →
  let patch := VObj [("username", JS.prop "username" (body req));
                     ("phone", JS.prop "phone" (body req))] in
  post_users env req w =
    (Ret {| status := 200;
            json := VObj [("ok", VBool true); ("id", JS.prop "id" (body req))] |},
     {| db := Store.upd users
                (map (λ r, if Store.matches (Store.column "id" r) (JS.prop "id" (body req))
                           then Store.patch_row (Store.sent patch) r else r)
                     (db w users)) (db w);
        trace := trace w ++ [Update users patch "id" (JS.prop "id" (body req))];
        reads := reads w; calls := S (calls w) |}).
Proof.
  intros Hid Hstore.
  assert (JS.nullish (body req) = false) as Hbody by (by destruct (body req)).
  unfold post_users, try_catch, bind. rewrite member_ok by done. rewrite Hid.
  by rewrite store_accepts.
Qed.



(** The update is last-write-wins on the fields that were sent: in every
    row whose [id] matches, [username] and [phone] take the values of the
    request as JSON carries them to the store ([Store.wire]: a number that
    is not finite and an invalid date arrive as [null]), except that a field
    left out of the request keeps its stored value; the other columns, [id]
    and [created_at] among them, are kept. *)
Theorem registration_update_overwrites_sent_fields (env : Env) (req : Request) (w : World)
    (i : nat) (r : row) :
  JS.truthy (JS.prop "id" (body req)) = true →
  store_error env (calls w) = None →
  db w users !! i = Some r →
  Store.matches (Store.column "id" r) (JS.prop "id" (body req)) = true →
  ∃ r', db (post_users env req w).2 users !! i = Some r' ∧
    Store.column "username" r'
      = sent_or (JS.prop "username" (body req)) (Store.column "username" r) ∧
    Store.column "phone" r'
      = sent_or (JS.prop "phone" (body req)) (Store.column "phone" r) ∧
    ∀ c, c ≠ "username" → c ≠ "phone" → Store.column c r' = Store.column c r.
Proof.
  intros Hid Hstore Hi Hmatch. rewrite update_run by done. cbn [snd db].
  rewrite upd_same, list_lookup_fmap, Hi. cbn [fmap option_fmap option_map].
  rewrite Hmatch. eexists. split; [reflexivity|]. apply patch_user_columns.
Qed.

Lemma registration_update_overwrites_sent_fields_witness :
  ∃ r', db (post_users Sample.env Sample.rename Sample.located).2 users !! 0%nat = Some r' ∧
        Store.column "username" r' = VStr "bob" ∧
        Store.column "created_at" r' = VDate (Some 50).
Proof.
  destruct (registration_update_overwrites_sent_fields Sample.env Sample.rename
              Sample.located 0 _ eq_refl eq_refl eq_refl eq_refl)
    as (r' & Hr' & Hname & _ & Hkept).
  exists r'. split; [exact Hr'|]. split; [exact Hname|].
  by rewrite Hkept.
Defined.

(* ===================================================================== *)
(** ** The resolver again: a blank first entry *)
(* ===================================================================== *)

Lemma first_entry_split (s e : string) :
  Spec.first_entry s e → ∃ es, JS.split "," s = e :: es.
Proof.
  revert s. induction e as [|c e IH]; intros s [Hno Hs].
  - destruct Hs as [->|[rest ->]]; [by eexists|]. rewrite append_nil. by eexists.
  - assert (c ≠ ","%char) as Hc by (apply Hno; by left).
    assert (∃ s', s = String c s' ∧ Spec.first_entry s' e) as (s' & -> & He).
    { destruct Hs as [->|[rest ->]].
      - exists e. split; [done|]. split; [|by left]. intros c' Hin. apply Hno. by right.
      - rewrite append_cons. eexists. split; [done|]. split; [|right; by eexists].
        intros c' Hin. apply Hno. by right. }
    destruct (IH _ He) as [es Hes]. cbn [JS.split].
    destruct (Ascii.eqb_spec c ","%char); [done|]. rewrite Hes. by eexists.
Qed.

Lemma getClientIp_forwarded (req : Request) (s e : string) :
  headers req !! "x-forwarded-for" = Some (VStr s) → s ≠ "" →
  Spec.first_entry s e → getClientIp req = Some (JS.trim e).
Proof.
  intros Hs Hne He. destruct (first_entry_split s e He) as [es Hes].
  unfold getClientIp, header. rewrite Hs. simpl.
  destruct (String.eqb_spec s "") as [->|_]; [done|]. simpl. by rewrite Hes.
Qed.

Lemma trim_blank (e : string) : Spec.blank e → JS.trim e = "".
Proof.
  unfold JS.trim, Spec.blank. induction e as [|c e IH]; simpl; [done|].
  intros H. apply Forall_cons in H as [-> H]. by apply IH.
Qed.

(** A forwarded-address header whose first entry is empty or blank (a
    header that starts with a comma, or holds only spaces) resolves to the
    empty string: the resolver does not fall back to the peer address, and
    the empty string is what the callers store and look up. *)
Theorem getClientIp_blank_first_entry (req : Request) (s e : string) :
  headers req !! "x-forwarded-for" = Some (VStr s) → s ≠ "" →
  Spec.first_entry s e → Spec.blank e →
  getClientIp req = Some "".
Proof.
  intros Hs Hne He Hblank. rewrite (getClientIp_forwarded req s e) by done.
  by rewrite trim_blank.
Qed.

Lemma getClientIp_blank_first_entry_witness :
  getClientIp Sample.blank_forwarded = Some "" ∧
  peerAddress Sample.blank_forwarded = Some "10.0.0.1".
Proof.
  split; [|reflexivity].
  apply (getClientIp_blank_first_entry Sample.blank_forwarded " , 10.0.0.7" " ").
  - reflexivity.
  - discriminate.
  - split; [|right; by eexists]. intros c [<-|[]]. discriminate.
  - by repeat constructor.
Defined.

(* ===================================================================== *)
(** ** Location reports: the address and the accuracy that are stored *)
(* ===================================================================== *)

(** The resolved address is a string or [null], which JSON carries as it
    is. *)
Lemma wire_of_ip (ip : option string) : Store.wire (of_ip ip) = of_ip ip.
Proof. by destruct ip. Qed.

(** The row of an accepted location report records as [ip] what the
    resolver returns for the request: the trimmed first entry of a
    non-empty forwarded-address header, whatever the peer address is, and
    [null] when the resolver finds nothing.  A truthy [accuracy] is stored
    as JSON carries it to the store ([Store.wire]), whatever its type: a
    number that is not finite arrives as [null]. *)
Theorem location_row_records_resolved_ip (env : Env) (req : Request) (w : World) :
  JS.truthy (JS.prop "user_id" (body req)) = true →
  JS.is_number (JS.prop "latitude" (body req)) = true →
  JS.is_number (JS.prop "longitude" (body req)) = true →
  store_error env (calls w) = None →
  ∃ r,
    db (post_report_location env req w).2 device_locations
      = db w device_locations ++ [r] ∧
    Store.column "ip" r = of_ip (getClientIp req) ∧
    (∀ s e, headers req !! "x-forwarded-for" = Some (VStr s) → s ≠ "" →
            Spec.first_entry s e → Store.column "ip" r = VStr (JS.trim e)) ∧
    (getClientIp req = None → Store.column "ip" r = VNull) ∧
    (JS.truthy (JS.prop "accuracy" (body req)) = true →
       Store.column "accuracy" r = Store.wire (JS.prop "accuracy" (body req))).
Proof.
  intros Hu Hlat Hlon Hstore.
  assert (JS.nullish (body req) = false) as Hbody by (by destruct (body req)).
  unfold post_report_location, try_catch, bind.
  rewrite member_ok by done. rewrite Hu, Hlat, Hlon. simpl.
  rewrite store_accepts by done. simpl. rewrite upd_same.
  eexists. split; [reflexivity|].
  assert (Store.column "ip"
            (Store.stored_row (store_now env (calls w)) (db w device_locations)
               (VObj [("user_id", JS.prop "user_id" (body req));
                      ("latitude", JS.prop "latitude" (body req));
                      ("longitude", JS.prop "longitude" (body req));
                      ("accuracy", JS.or (JS.prop "accuracy" (body req)) VNull);
                      ("ip", of_ip (getClientIp req));
                      ("created_at", VDate (Some (clock env (reads w))))]))
          = of_ip (getClientIp req)) as Hip.
  { rewrite stored_row_column; simpl; [apply wire_of_ip|by destruct (getClientIp req)]. }
  split; [exact Hip|]. split; [|split].
  - intros s e Hs Hne He. by rewrite Hip, (getClientIp_forwarded req s e).
  - intros Hnone. by rewrite Hip, Hnone.
  - intros Hacc. rewrite stored_row_column; simpl; unfold JS.or; rewrite Hacc; [done|].
    by apply truthy_defined.
Qed.

Lemma location_row_records_resolved_ip_witness :
  ∃ r,
    db (post_report_location Sample.env Sample.blank_forwarded Sample.start).2
      device_locations = [r] ∧
    Store.column "ip" r = VStr "".
Proof.
  destruct (location_row_records_resolved_ip Sample.env Sample.blank_forwarded Sample.start
              eq_refl eq_refl eq_refl eq_refl) as (r & Hdb & Hip & _).
  exists r. split; [exact Hdb|]. exact Hip.
Defined.

(* ===================================================================== *)
(** ** IP reports *)
(* ===================================================================== *)

(** The URL that the IP report fetches. *)
Lemma report_ip_run (env : Env) (req : Request) (w : World) (token : string) :
  IPINFO_TOKEN env = Some token → token ≠ "" →
  JS.truthy (JS.prop "user_id" (body req)) = true →
  post_report_ip env req w =
    try_catch
      (do geo <- (λ w, (fetch_json env ("https://ipinfo.io/" +:+ default "null" (getClientIp req)
                                        +:+ "/json?token=" +:+ token), w));
       do city <- member "city" geo;
       do created_at <- newDate env;
       do r <- store env
                 (Insert ip_locations
                    [VObj [("user_id", JS.prop "user_id" (body req));
                           ("ip", of_ip (getClientIp req));
                           ("city", JS.or city VNull);
                           ("region", JS.or (JS.prop "region" geo) VNull);
                           ("country", JS.or (JS.prop "country" geo) VNull);
                           ("loc", JS.or (JS.prop "loc" geo) VNull);
                           ("provider", JS.or (JS.prop "org" geo) VNull);
                           ("created_at", created_at)]]);
       do _ <- check r;
       res_json (VObj [("ok", VBool true); ("geo", geo)])) on_error w.
Proof.
  intros Htoken Hne Hu.
  assert (JS.nullish (body req) = false) as Hbody by (by destruct (body req)).
  unfold post_report_ip. rewrite Htoken.
  assert (JS.truthy (VStr token) = true) as ->.
  { simpl. by destruct (String.eqb_spec token ""). }
  cbn [negb]. unfold try_catch at 1 2. unfold bind at 1 6.
  rewrite member_ok by done. by rewrite Hu.
Qed.

(** The provider token is checked before the body: without a token, or
    with an empty one, every IP report is answered 500 and nothing else
    happens, even for a body that validation would reject; with a token, a
    report without a truthy [user_id] is answered 400. *)
Theorem report_ip_checks_token_first (env : Env) (req : Request) (w : World) :
  (IPINFO_TOKEN env = None ∨ IPINFO_TOKEN env = Some "" →
     post_report_ip env req w =
       (Ret {| status := 500; json := failure "IPINFO_TOKEN non configuré" |}, w)) ∧
  (∀ token, IPINFO_TOKEN env = Some token → token ≠ "" →
     JS.nullish (body req) = false →
     JS.truthy (JS.prop "user_id" (body req)) = false →
     post_report_ip env req w =
       (Ret {| status := 400; json := failure "user_id requis" |}, w)).
Proof.
  split.
  - intros [H|H]; unfold post_report_ip; by rewrite H.
  - intros token Htoken Hne Hbody Hu. unfold post_report_ip. rewrite Htoken.
    assert (JS.truthy (VStr token) = true) as ->.
    { simpl. by destruct (String.eqb_spec token ""). }
    cbn [negb]. unfold try_catch, bind. rewrite member_ok by done. by rewrite Hu.
Qed.

Lemma report_ip_checks_token_first_witness :
  post_report_ip Sample.no_token_env (Sample.request (VObj [])) Sample.start =
    (Ret {| status := 500; json := failure "IPINFO_TOKEN non configuré" |}, Sample.start).
Proof.
  apply (report_ip_checks_token_first Sample.no_token_env (Sample.request (VObj []))
           Sample.start). by left.
Defined.

(** An accepted IP report: the provider's answer is handed to the
    response unchanged as [geo], and one row is stored with the submitted
    [user_id], the resolved address and the provider's [city], [region],
    [country], [loc] and [org] (as [provider]), each replaced by [null] when
    it is absent or falsy.  The [user_id] and the provider's fields are
    stored as JSON carries them to the store ([Store.wire]).  An answer with
    no usable field, such as [{}], still gives a row, with [null]
    everywhere, and is no error. *)
Theorem report_ip_stores_provider_answer (env : Env) (req : Request) (w : World)
    (token : string) (geo : value) :
  IPINFO_TOKEN env = Some token → token ≠ "" →
  JS.truthy (JS.prop "user_id" (body req)) = true →
  fetch_json env ("https://ipinfo.io/" +:+ default "null" (getClientIp req)
                  +:+ "/json?token=" +:+ token) = Ret geo →
  JS.nullish geo = false →
  store_error env (calls w) = None →
  ∃ r w',
    post_report_ip env req w =
      (Ret {| status := 200; json := VObj [("ok", VBool true); ("geo", geo)] |}, w') ∧
    db w' ip_locations = db w ip_locations ++ [r] ∧
    Store.column "user_id" r = Store.wire (JS.prop "user_id" (body req)) ∧
    Store.column "ip" r = of_ip (getClientIp req) ∧
    Store.column "city" r = Store.wire (JS.or (JS.prop "city" geo) VNull) ∧
    Store.column "region" r = Store.wire (JS.or (JS.prop "region" geo) VNull) ∧
    Store.column "country" r = Store.wire (JS.or (JS.prop "country" geo) VNull) ∧
    Store.column "loc" r = Store.wire (JS.or (JS.prop "loc" geo) VNull) ∧
    Store.column "provider" r = Store.wire (JS.or (JS.prop "org" geo) VNull) ∧
    Store.column "created_at" r = VDate (Some (clock env (reads w))).
Proof.
  intros Htoken Hne Hu Hfetch Hgeo Hstore.
  rewrite (report_ip_run env req w token) by done.
  unfold try_catch, bind. rewrite Hfetch. rewrite member_ok by done. simpl.
  rewrite store_accepts by done. simpl. rewrite ?upd_same.
  eexists _, _. split; [reflexivity|]. cbn [db]. rewrite ?upd_same.
  split; [reflexivity|].
  assert (∀ v, JS.or v VNull ≠ VUndefined) as Hor.
  { intros v. unfold JS.or. destruct (JS.truthy v) eqn:Hv; [by apply truthy_defined|done]. }
  rewrite !stored_row_column; simpl; repeat split; try done; try apply Hor.
  - apply wire_of_ip.
  - by destruct (getClientIp req).
  - by apply truthy_defined.
Qed.

Lemma report_ip_stores_provider_answer_witness :
  ∃ r w',
    post_report_ip Sample.env Sample.ip_report Sample.start =
      (Ret {| status := 200; json := VObj [("ok", VBool true); ("geo", VObj [])] |}, w') ∧
    db w' ip_locations = [r] ∧
    Store.column "city" r = VNull ∧ Store.column "provider" r = VNull.
Proof.
  destruct (report_ip_stores_provider_answer Sample.env Sample.ip_report Sample.start
              "token" (VObj []) eq_refl)
    as (r & w' & Hrun & Hdb & _ & _ & Hcity & _ & _ & _ & Horg & _);
    try reflexivity; try discriminate.
  exists r, w'. split; [exact Hrun|]. split; [exact Hdb|]. split; [exact Hcity|exact Horg].
Defined.

(** When the provider cannot be reached, or its answer cannot be read, or
    it answers [null], the IP report is answered 500 and nothing else
    happens: the clock is not read, no store call is made, no table
    changes. *)
Theorem report_ip_provider_failure_writes_nothing (env : Env) (req : Request) (w : World)
    (token : string) :
  IPINFO_TOKEN env = Some token → token ≠ "" →
  JS.truthy (JS.prop "user_id" (body req)) = true →
  let answer := fetch_json env ("https://ipinfo.io/" +:+ default "null" (getClientIp req)
                                +:+ "/json?token=" +:+ token) in
  (∀ e, answer = Throw e →
        post_report_ip env req w = (Ret {| status := 500; json := failure e |}, w)) ∧
  (∀ geo, answer = Ret geo → JS.nullish geo = true →
          ∃ resp, post_report_ip env req w = (Ret resp, w) ∧ status resp = 500%nat).
Proof.
  intros Htoken Hne Hu answer. subst answer. split.
  - intros e He. rewrite (report_ip_run env req w token) by done.
    unfold try_catch, bind. by rewrite He.
  - intros geo Hgeo Hnull. rewrite (report_ip_run env req w token) by done.
    unfold try_catch, bind, member. rewrite Hgeo, Hnull. by eexists.
Qed.

Lemma report_ip_provider_failure_writes_nothing_witness :
  post_report_ip Sample.offline_env Sample.ip_report Sample.start =
    (Ret {| status := 500; json := failure "fetch failed" |}, Sample.start).
Proof.
  destruct (report_ip_provider_failure_writes_nothing Sample.offline_env Sample.ip_report
              Sample.start "token" eq_refl) as [Hthrow _];
    [discriminate|reflexivity|].
  by apply Hthrow.
Defined.

(* ===================================================================== *)
(** ** Call-log batches *)
(* ===================================================================== *)

Lemma mapM_length {A B} (f : A → M B) (l : list A) (w : World) (bs : list B) (w' : World) :
  mapM f l w = (Ret bs, w') → length bs = length l.
Proof.
  revert w bs w'. induction l as [|a l IH]; intros w bs w'; cbn [mapM].
  { by intros [= <- _]. }
  unfold bind at 1. destruct (f a w) as [[b|e] w1]; [|done].
  unfold bind at 1. destruct (mapM f l w1) as [[bs'|e] w2] eqn:Hrest; [|done].
  intros [= <- _]. simpl. f_equal. by eapply IH.
Qed.

Lemma call_rows_null_throws (env : Env) (user_id : value) (items : list value) (w : World) :
  Exists (λ c, JS.nullish c = true) items →
  ∃ e, (mapM (call_row env user_id) items w).1 = Throw e.
Proof.
  intros H. revert w. induction H as [c items Hc|c items _ IH]; intros w; cbn [mapM].
  - unfold bind at 1, call_row, bind at 1, member. rewrite Hc. by eexists.
  - unfold bind at 1. destruct (call_row_cases env user_id c w) as [[e ->]| ->];
      [by eexists|].
    unfold bind at 1. destruct (IH (tick 1 w)) as [e He].
    destruct (mapM _ items (tick 1 w)) as [[rows|e'] w2]; [done|]. by eexists.
Qed.

(** A batch of call logs is stored whole or not at all: whatever the
    request and whatever the store answers, either the answer is 200 and
    [call_logs] has gained exactly as many rows as [calls] has elements, or
    the answer is not 200 and [call_logs] is unchanged.  No other table
    changes. *)
Theorem call_batch_is_all_or_nothing (env : Env) (req : Request) (w : World) :
  ∃ resp w',
    post_report_calls env req w = (Ret resp, w') ∧
    (∀ t, t ≠ call_logs → db w' t = db w t) ∧
    (status resp = 200%nat ∧
     (∃ new, db w' call_logs = db w call_logs ++ new ∧
             length new = length (JS.items (JS.prop "calls" (body req)))) ∨
     status resp ≠ 200%nat ∧ db w' call_logs = db w call_logs).
Proof.
  unfold post_report_calls. unfold try_catch at 1. unfold bind at 1, member.
  destruct (JS.nullish (body req)).
  { eexists _, _. split; [reflexivity|]. split; [done|]. by right. }
  unfold ret at 1.
  destruct (negb (JS.truthy _) || negb (JS.isArray _)).
  { eexists _, _. split; [reflexivity|]. split; [done|]. by right. }
  unfold bind at 1.
  destruct (mapM _ (JS.items _) w) as [[rows|e] w1] eqn:Hmap;
    destruct (call_rows_stamped _ _ _ _ _ _ Hmap) as (Htrace & Hdb & Hcalls & _).
  - pose proof (mapM_length _ _ _ _ _ Hmap) as Hlen.
    unfold bind, store. destruct (store_error env (calls w1)) as [e|]; simpl.
    + eexists _, _. split; [reflexivity|]. simpl. rewrite Hdb. split; [done|]. by right.
    + eexists _, _. split; [reflexivity|]. simpl. rewrite Hdb.
      split; [intros t Ht; by rewrite upd_other|]. left. split; [done|].
      rewrite upd_same. eexists. split; [reflexivity|].
      by rewrite stored_rows_length.
  - eexists _, _. split; [reflexivity|]. simpl. rewrite Hdb. split; [done|]. by right.
Qed.

(** One [null] among the elements of [calls] rejects the whole batch, and
    with 500 rather than 400: the callback throws on it, no store call is
    made and no table changes. *)
Theorem null_call_element_rejects_batch (env : Env) (req : Request) (w : World)
    (items : list value) :
  JS.truthy (JS.prop "user_id" (body req)) = true →
  JS.prop "calls" (body req) = VArr items →
  Exists (λ c, JS.nullish c = true) items →
  ∃ resp w',
    post_report_calls env req w = (Ret resp, w') ∧
    status resp = 500%nat ∧ trace w' = trace w ∧ db w' = db w.
Proof.
  intros Hu Hcalls Hnull.
  assert (JS.nullish (body req) = false) as Hbody by (by destruct (body req)).
  unfold post_report_calls. unfold try_catch at 1. unfold bind at 1.
  rewrite member_ok by done. rewrite Hcalls, Hu. cbn [JS.isArray JS.items negb orb].
  unfold bind at 1.
  destruct (call_rows_null_throws env (JS.prop "user_id" (body req)) items w Hnull)
    as [e He].
  destruct (mapM _ items w) as [[rows|e'] w1] eqn:Hmap; [done|].
  destruct (call_rows_stamped _ _ _ _ _ _ Hmap) as (Htrace & Hdb & _).
  eexists _, _. split; [reflexivity|]. by repeat split.
Qed.

Lemma null_call_element_rejects_batch_witness :
  ∃ resp w',
    post_report_calls Sample.env Sample.null_call Sample.start = (Ret resp, w') ∧
    status resp = 500%nat ∧ trace w' = trace Sample.start.
Proof.
  destruct (null_call_element_rejects_batch Sample.env Sample.null_call Sample.start
              [VObj [("number", VStr "0611111111")]; VNull] eq_refl eq_refl)
    as (resp & w' & Hrun & Hstatus & Htrace & _).
  - right. by left.
  - by exists resp, w'.
Defined.



(* ===================================================================== *)
(** ** What is written is what the admin listing shows *)
(* ===================================================================== *)

Lemma location_run (env : Env) (req : Request) (w : World) :
  JS.truthy (JS.prop "user_id" (body req)) = true →
  JS.is_number (JS.prop "latitude" (body req)) = true →
  JS.is_number (JS.prop "longitude" (body req)) = true →
  store_error env (calls w) = None →
  let payload :=
    VObj [("user_id", JS.prop "user_id" (body req));
          ("latitude", JS.prop "latitude" (body req));
          ("longitude", JS.prop "longitude" (body req));
          ("accuracy", JS.or (JS.prop "accuracy" (body req)) VNull);
          ("ip", of_ip (getClientIp req));
          ("created_at", VDate (Some (clock env (reads w))))] in
  post_report_location env req w =
    (Ret {| status := 200; json := VObj [("ok", VBool true)] |},
     {| db := Store.upd device_locations
                (db w device_locations ++
                 [Store.stored_row (store_now env (calls w)) (db w device_locations) payload])
                (db w);
        trace := trace w ++ [Insert device_locations [payload]];
        reads := S (reads w); calls := S (calls w) |}).
Proof.
  intros Hu Hlat Hlon Hstore.
  assert (JS.nullish (body req) = false) as Hbody by (by destruct (body req)).
  unfold post_report_location, try_catch, bind.
  rewrite member_ok by done. rewrite Hu, Hlat, Hlon. simpl.
  by rewrite store_accepts.
Qed.

Lemma admin_run (env : Env) (req : Request) (w : World) :
  (∀ k, (calls w ≤ k)%nat → store_error env k = None) →
  ∃ w',
    get_admin_users env req w =
      (Ret {| status := 200;
              json :=
                VObj [("ok", VBool true);
                      ("results",
                       VArr (map (snapshot (db w))
                               (map VObj
                                  (Store.select (db w users)
                                     (Some ["id"; "username"; "phone"; "created_at"])
                                     None "created_at" 200))))] |}, w').
Proof.
  intros Hok. unfold get_admin_users, try_catch, bind.
  rewrite store_answers by (apply Hok; lia). cbn [data iterate ret].
  rewrite user_entries_run; cycle 1.
  { rewrite Forall_map. by apply Forall_true. }
  { intros k Hk. apply Hok. simpl in Hk. lia. }
  by eexists.
Qed.

Lemma latest_row_nonempty (c : string) (rows : list row) (v : value) :
  rows ≠ [] → Spec.latest_row c rows v →
  ∃ r, v = VObj r ∧ r ∈ rows ∧ ∀ r', r' ∈ rows → Store.before c r r'.
Proof. by destruct rows. Qed.

(** Read your write: after an accepted location report for the user [s]
    whose clock reading is later than the [created_at] of all the location
    rows stored for [s], every entry of the admin listing for a user with
    that [id] shows the row just stored as [last_location]; that row holds
    the submitted latitude and longitude as JSON carries them to the store
    ([Store.wire]: a number that is not finite arrives as [null]). *)
Theorem reported_location_is_listed (env : Env) (req req' : Request) (w : World)
    (s : string) :
  JS.prop "user_id" (body req) = VStr s → s ≠ "" →
  JS.is_number (JS.prop "latitude" (body req)) = true →
  JS.is_number (JS.prop "longitude" (body req)) = true →
  (∀ k, (calls w ≤ k)%nat → store_error env k = None) →
  (∀ r', r' ∈ Spec.rows_of (db w) device_locations (VStr s) →
         ∃ t', Store.ts (Store.column "created_at" r') = Some t' ∧
               (t' < clock env (reads w))%Z) →
  ∃ r w1 results w2,
    post_report_location env req w =
      (Ret {| status := 200; json := VObj [("ok", VBool true)] |}, w1) ∧
    db w1 device_locations = db w device_locations ++ [r] ∧
    Store.column "latitude" r = Store.wire (JS.prop "latitude" (body req)) ∧
    Store.column "longitude" r = Store.wire (JS.prop "longitude" (body req)) ∧
    get_admin_users env req' w1 =
      (Ret {| status := 200;
              json := VObj [("ok", VBool true); ("results", VArr results)] |}, w2) ∧
    ∀ res, res ∈ results →
           JS.prop "id" (JS.prop "user" res) = VStr s →
           JS.prop "last_location" res = VObj r.
Proof.
  intros Hs Hne Hlat Hlon Hok Holder.
  assert (JS.truthy (JS.prop "user_id" (body req)) = true) as Hu.
  { rewrite Hs. simpl. by destruct (String.eqb_spec s ""). }
  pose proof (location_run env req w Hu Hlat Hlon (Hok _ (Nat.le_refl _))) as Hrun.
  cbn zeta in Hrun.
  set (r := Store.stored_row _ _ _) in Hrun. set (w1 := Build_World _ _ _ _) in Hrun.
  destruct (admin_run env req' w1) as [w2 Hadmin].
  { intros k Hk. apply Hok. simpl in Hk. lia. }
  eexists r, w1, _, w2. split; [exact Hrun|].
  assert (db w1 device_locations = db w device_locations ++ [r]) as Hdb
    by (subst w1; cbn [db]; by rewrite upd_same).
  split; [exact Hdb|].
  assert (Store.column "user_id" r = VStr s ∧
          Store.column "created_at" r = VDate (Some (clock env (reads w))) ∧
          Store.column "latitude" r = Store.wire (JS.prop "latitude" (body req)) ∧
          Store.column "longitude" r = Store.wire (JS.prop "longitude" (body req)))
    as (Hruser & Hrtime & Hrlat & Hrlon).
  { subst r. rewrite !stored_row_column; simpl; rewrite ?Hs; repeat split; try done;
      by apply number_defined. }
  split; [exact Hrlat|]. split; [exact Hrlon|]. split; [exact Hadmin|].
  intros res Hres Hid.
  apply list_elem_of_fmap in Hres as (u & -> & Hu').
  apply list_elem_of_fmap in Hu' as (urow & -> & _).
  destruct (snapshot_latest (db w1) urow) as (ll & li & cs & Hsnap & Hll & _).
  assert (JS.prop "user" (snapshot (db w1) (VObj urow)) = VObj urow) as Huser by done.
  rewrite Huser in Hid. cbn [JS.prop] in Hid.
  rewrite Hsnap. change (JS.prop "last_location" _) with ll.
  unfold Store.column in Hll. rewrite Hid in Hll.
  assert (Spec.rows_of (db w1) device_locations (VStr s)
            = Spec.rows_of (db w) device_locations (VStr s) ++ [r]) as Hrows.
  { unfold Spec.rows_of. rewrite Hdb, List.filter_app. f_equal.
    simpl. rewrite Hruser. simpl. by rewrite String.eqb_refl. }
  rewrite Hrows in Hll.
  apply latest_row_nonempty in Hll as (r0 & -> & Hin & Hbefore);
    [|by destruct (Spec.rows_of (db w) device_locations (VStr s))].
  f_equal. apply elem_of_app in Hin as [Hold|Hnew].
  - exfalso. destruct (Holder r0 Hold) as (t' & Ht' & Hlt).
    specialize (Hbefore r). unfold Store.before in Hbefore.
    rewrite Ht', Hrtime in Hbefore. simpl in Hbefore.
    assert (clock env (reads w) ≤ t')%Z; [|lia].
    apply Hbefore. apply elem_of_app. right. by apply list_elem_of_singleton.
  - by apply list_elem_of_singleton in Hnew.
Qed.

Lemma reported_location_is_listed_witness :
  ∃ r w1 results w2,
    post_report_location Sample.later_env Sample.location_report Sample.located =
      (Ret {| status := 200; json := VObj [("ok", VBool true)] |}, w1) ∧
    get_admin_users Sample.later_env (Sample.request VUndefined) w1 =
      (Ret {| status := 200;
              json := VObj [("ok", VBool true); ("results", VArr results)] |}, w2) ∧
    ∀ res, res ∈ results →
           JS.prop "id" (JS.prop "user" res) = VStr "u1" →
           JS.prop "last_location" res = VObj r.
Proof.
  destruct (reported_location_is_listed Sample.later_env Sample.location_report
              (Sample.request VUndefined) Sample.located "u1" eq_refl)
    as (r & w1 & results & w2 & Hrun & _ & _ & _ & Hadmin & Hlisted);
    try reflexivity; try discriminate.
  - intros r' Hr'. vm_compute in Hr'.
    apply elem_of_cons in Hr' as [->|Hr'];
      [exists 100%Z; split; [reflexivity|vm_compute; reflexivity]|].
    apply elem_of_cons in Hr' as [->|Hr'];
      [exists 200%Z; split; [reflexivity|vm_compute; reflexivity]|].
    by apply elem_of_nil in Hr'.
  - by exists r, w1, results, w2.
Defined.

Lemma register_run (env : Env) (req : Request) (w : World) :
  JS.nullish (body req) = false →
  JS.truthy (JS.prop "id" (body req)) = false →
  store_error env (calls w) = None →
  let payload := VObj [("username", JS.prop "username" (body req));
                       ("phone", JS.prop "phone" (body req))] in
  let r := Store.stored_row (store_now env (calls w)) (db w users) payload in
  post_users env req w =
    (Ret {| status := 200;
            json := VObj [("ok", VBool true); ("id", VStr (Store.fresh_id (db w users)));
                          ("user", VObj r)] |},
     {| db := Store.upd users (db w users ++ [r]) (db w);
        trace := trace w ++ [InsertSelectSingle users [payload]];
        reads := reads w; calls := S (calls w) |}) ∧
  Store.column "id" r = VStr (Store.fresh_id (db w users)).
Proof.
  intros Hbody Hid Hstore payload r.
  assert (Store.column "id" r = VStr (Store.fresh_id (db w users))) as Hr.
  { destruct (new_user_stored (store_now env (calls w)) (db w users)
                (JS.prop "username" (body req)) (JS.prop "phone" (body req)))
      as (r' & [= <-] & Hr'). exact Hr'. }
  split; [|exact Hr].
  unfold post_users, try_catch, bind. rewrite member_ok by done. rewrite Hid.
  rewrite store_accepts by done. cbn [Store.apply Store.stored_rows fst snd data error check].
  fold payload. fold r. unfold ret, member. cbn [JS.nullish JS.prop].
  unfold Store.column in Hr. by rewrite Hr.
Qed.

(** A user who has just been registered is listed: while [users] holds
    fewer than 200 rows, the admin listing that follows an accepted
    registration has an entry whose user carries the identifier that the
    registration returned, and the [username] that was sent, as JSON carries
    it to the store ([Store.wire]). *)
Theorem registered_user_is_listed (env : Env) (req req' : Request) (w : World) :
  JS.nullish (body req) = false →
  JS.truthy (JS.prop "id" (body req)) = false →
  (∀ k, (calls w ≤ k)%nat → store_error env k = None) →
  (length (db w users) < 200)%nat →
  ∃ new_id user w1 results w2,
    post_users env req w =
      (Ret {| status := 200;
              json := VObj [("ok", VBool true); ("id", VStr new_id); ("user", user)] |},
       w1) ∧
    get_admin_users env req' w1 =
      (Ret {| status := 200;
              json := VObj [("ok", VBool true); ("results", VArr results)] |}, w2) ∧
    ∃ res, res ∈ results ∧
           JS.prop "id" (JS.prop "user" res) = VStr new_id ∧
           (JS.prop "username" (body req) ≠ VUndefined →
              JS.prop "username" (JS.prop "user" res)
                = Store.wire (JS.prop "username" (body req))).
Proof.
  intros Hbody Hid Hok Hfew.
  destruct (register_run env req w Hbody Hid (Hok _ (Nat.le_refl _))) as [Hrun Hrid].
  cbn zeta in Hrun, Hrid.
  set (r := Store.stored_row _ _ _) in *. set (w1 := Build_World _ _ _ _) in Hrun.
  destruct (admin_run env req' w1) as [w2 Hadmin].
  { intros k Hk. apply Hok. simpl in Hk. lia. }
  eexists _, _, w1, _, w2. split; [exact Hrun|]. split; [exact Hadmin|].
  assert (db w1 users = db w users ++ [r]) as Hdb
    by (subst w1; cbn [db]; by rewrite upd_same).
  destruct (select_newest_first (db w1 users)
              (Some ["id"; "username"; "phone"; "created_at"]) None "created_at" 200)
    as (page & -> & rest & Hperm & _ & Hlen).
  cbn [Store.selected] in Hperm, Hlen.
  assert (rest = []) as ->.
  { apply Permutation_length in Hperm. rewrite length_app in Hperm.
    rewrite Hdb, length_app in Hperm, Hlen. cbn [length] in Hperm, Hlen.
    destruct rest; [done|]. cbn [length] in Hperm. lia. }
  rewrite app_nil_r in Hperm.
  assert (r ∈ page) as Hin.
  { rewrite Hperm, Hdb. apply elem_of_app. right. by apply list_elem_of_singleton. }
  exists (snapshot (db w1)
            (VObj (Store.project (Some ["id"; "username"; "phone"; "created_at"]) r))).
  split.
  { apply list_elem_of_fmap. eexists. split; [reflexivity|].
    apply list_elem_of_fmap. eexists. split; [reflexivity|].
    apply list_elem_of_fmap. exists r. by split. }
  change (JS.prop "user" (snapshot _ ?u)) with u.
  cbn [Store.project map JS.prop JS.lookup_prop String.eqb Ascii.eqb Bool.eqb].
  split; [by rewrite Hrid|].
  intros Hname. subst r.
  rewrite stored_row_column; cbn [JS.lookup_prop String.eqb Ascii.eqb Bool.eqb]; [|done].
  pose proof (wire_defined (JS.prop "username" (body req))) as Hwire.
  by destruct (Store.wire (JS.prop "username" (body req))).
Qed.

Lemma registered_user_is_listed_witness :
  ∃ new_id user w1 results w2,
    post_users Sample.env Sample.registration Sample.located =
      (Ret {| status := 200;
              json := VObj [("ok", VBool true); ("id", VStr new_id); ("user", user)] |},
       w1) ∧
    get_admin_users Sample.env (Sample.request VUndefined) w1 =
      (Ret {| status := 200;
              json := VObj [("ok", VBool true); ("results", VArr results)] |}, w2) ∧
    ∃ res, res ∈ results ∧ JS.prop "id" (JS.prop "user" res) = VStr new_id.
Proof.
  destruct (registered_user_is_listed Sample.env Sample.registration
              (Sample.request VUndefined) Sample.located eq_refl eq_refl)
    as (new_id & user & w1 & results & w2 & Hrun & Hadmin & res & Hres & Hid & _).
  - reflexivity.
  - simpl. lia.
  - exists new_id, user, w1, results, w2. split; [exact Hrun|]. split; [exact Hadmin|].
    by exists res.
Defined.

(* ===================================================================== *)
(** ** The offline cache of the client *)
(* ===================================================================== *)

Lemma fetch_all_entries (net : Worker.Net) (urls : list string)
    (es : list (string * Worker.Resource)) :
  Worker.fetch_all net urls = Some es →
  map fst es = map (Worker.resolve net) urls ∧
  ∀ u, u ∈ urls →
       ∃ r, Worker.fetch net (Worker.GET (Worker.resolve net u)) = Some r ∧
            Worker.ok r = true ∧ (Worker.resolve net u, r) ∈ es.
Proof.
  revert es. induction urls as [|u urls IH]; intros es; cbn [Worker.fetch_all].
  { intros [= <-]. split; [done|]. intros u Hu. by apply elem_of_nil in Hu. }
  destruct (Worker.fetch net _) as [r|] eqn:Hr; [|done].
  destruct (Worker.ok r) eqn:Hok; [|done].
  destruct (Worker.fetch_all net urls) as [es'|]; [|done].
  intros [= <-]. destruct (IH es' eq_refl) as [Hkeys Hall].
  split; [simpl; by rewrite Hkeys|].
  intros u' Hu'. apply elem_of_cons in Hu' as [->|Hu'].
  - exists r. repeat split; try done. by left.
  - destruct (Hall u' Hu') as (r' & ? & ? & ?). exists r'. repeat split; try done. by right.
Qed.

Lemma fetch_all_complete (net : Worker.Net) (urls : list string) :
  (∀ u, u ∈ urls →
        ∃ r, Worker.fetch net (Worker.GET (Worker.resolve net u)) = Some r ∧
             Worker.ok r = true) →
  is_Some (Worker.fetch_all net urls).
Proof.
  induction urls as [|u urls IH]; intros H; cbn [Worker.fetch_all]; [by eexists|].
  destruct (H u) as (r & -> & ->); [by left|].
  destruct IH as [es ->]; [|by eexists]. intros u' Hu'. apply H. by right.
Qed.

Lemma content_of_set (name : string) (c' : gmap string Worker.Resource)
    (st : Worker.Storage) :
  Worker.content_of name (Worker.set_content name c' (Worker.open name st)) = c'.
Proof.
  induction st as [|[n c] st IH]; simpl.
  - rewrite String.eqb_refl. simpl. by rewrite String.eqb_refl.
  - destruct (String.eqb name n) eqn:Hn; simpl; rewrite Hn; simpl; by rewrite Hn.
Qed.

Lemma caches_match_open (name : string) (st : Worker.Storage) (req : Worker.Req) :
  Worker.caches_match (Worker.open name st) req = Worker.caches_match st req.
Proof.
  induction st as [|[n c] st IH]; simpl.
  - unfold Worker.cache_match. by destruct (String.eqb _ "GET").
  - destruct (String.eqb name n); simpl; [done|]. by rewrite IH.
Qed.

Lemma caches_match_content (name : string) (st : Worker.Storage) (k : string)
    (r : Worker.Resource) :
  Worker.content_of name st !! k = Some r →
  is_Some (Worker.caches_match st (Worker.GET k)).
Proof.
  induction st as [|[n c] st IH]; simpl; [done|].
  destruct (Worker.cache_match c (Worker.GET k)) as [r'|] eqn:Hc; [by eexists|].
  destruct (String.eqb name n); [|done].
  intros Hk. unfold Worker.cache_match in Hc. simpl in Hc. congruence.
Qed.

Lemma install_cases (net : Worker.Net) (st : Worker.Storage) :
  (∃ es, NoDup (map (Worker.resolve net) Worker.urlsToCache) ∧
         Worker.fetch_all net Worker.urlsToCache = Some es ∧
         Worker.install net st =
           (true,
            Worker.set_content Worker.CACHE_NAME
              (list_to_map es ∪
               Worker.content_of Worker.CACHE_NAME (Worker.open Worker.CACHE_NAME st))
              (Worker.open Worker.CACHE_NAME st))) ∨
  ((¬ NoDup (map (Worker.resolve net) Worker.urlsToCache) ∨
    Worker.fetch_all net Worker.urlsToCache = None) ∧
   Worker.install net st = (false, Worker.open Worker.CACHE_NAME st)).
Proof.
  unfold Worker.install, Worker.addAll.
  destruct (decide (NoDup _)) as [Hnd|Hnd]; [|right; split; [by left|done]].
  destruct (Worker.fetch_all net Worker.urlsToCache) as [es|] eqn:Hes.
  - left. by exists es.
  - right. split; [by right|done].
Qed.

(** The installation of the worker caches the three listed resources all
    together or not at all.  It succeeds exactly when the three URLs are
    distinct and each fetch resolves to a response that is [ok], and then
    the cache holds each of these responses under its URL; when it fails
    (one resource cannot be fetched, say) nothing is stored, and what the
    caches answer to any request is what they answered before. *)
Theorem worker_install_is_all_or_nothing (net : Worker.Net) (st : Worker.Storage) :
  ((Worker.install net st).1 = true ↔
     NoDup (map (Worker.resolve net) Worker.urlsToCache) ∧
     ∀ u, u ∈ Worker.urlsToCache →
          ∃ r, Worker.fetch net (Worker.GET (Worker.resolve net u)) = Some r ∧
               Worker.ok r = true) ∧
  ((Worker.install net st).1 = true →
     ∀ u, u ∈ Worker.urlsToCache →
          Worker.content_of Worker.CACHE_NAME (Worker.install net st).2
            !! Worker.resolve net u
            = Worker.fetch net (Worker.GET (Worker.resolve net u))) ∧
  ((Worker.install net st).1 = false →
     ∀ req, Worker.caches_match (Worker.install net st).2 req
              = Worker.caches_match st req).
Proof.
  destruct (install_cases net st) as [(es & Hnd & Hes & ->)|[Hwhy ->]]; cbn [fst snd].
  - destruct (fetch_all_entries _ _ _ Hes) as [Hkeys Hall].
    split; [|split; [|done]].
    + split; [|done]. intros _. split; [done|].
      intros u Hu. destruct (Hall u Hu) as (r & ? & ? & _). by exists r.
    + intros _ u Hu. destruct (Hall u Hu) as (r & -> & _ & Hin).
      rewrite content_of_set. apply lookup_union_Some_l.
      apply elem_of_list_to_map; [|done]. change (NoDup (map fst es)). by rewrite Hkeys.
  - split; [|split; [done|]].
    + split; [done|]. intros [Hnd Hall]. destruct Hwhy as [Hdup|Hnone]; [done|].
      destruct (fetch_all_complete net Worker.urlsToCache Hall) as [es Hes]. congruence.
    + intros _ req. apply caches_match_open.
Qed.

Lemma worker_install_is_all_or_nothing_witness :
  (Worker.install Worker.online []).1 = true ∧
  (Worker.install Worker.without_image []).1 = false ∧
  ∀ req, Worker.caches_match (Worker.install Worker.without_image []).2 req = None.
Proof.
  split; [reflexivity|]. split; [reflexivity|].
  intros req.
  destruct (worker_install_is_all_or_nothing Worker.without_image []) as (_ & _ & Hfail).
  by rewrite Hfail.
Defined.

Lemma caches_match_not_get (st : Worker.Storage) (req : Worker.Req) :
  Worker.method req ≠ "GET" → Worker.caches_match st req = None.
Proof.
  intros Hm. induction st as [|[n c] st IH]; simpl; [done|].
  unfold Worker.cache_match. by destruct (String.eqb_spec (Worker.method req) "GET").
Qed.

(** Once the worker is installed, a GET request for any of the three
    listed resources is answered from the cache whatever the network does,
    even when it is down, and the cache is never refreshed: installed on
    empty caches, the worker keeps answering with the response that was
    fetched at installation.  A request that is not a GET is never answered
    from the cache: its answer is the network's. *)
Theorem worker_serves_installed_urls_offline (net net' : Worker.Net)
    (st : Worker.Storage) :
  (Worker.install net st).1 = true →
  (∀ u, u ∈ Worker.urlsToCache →
        is_Some (Worker.on_fetch net' (Worker.install net st).2
                   (Worker.GET (Worker.resolve net u)))) ∧
  (st = [] →
   ∀ u, u ∈ Worker.urlsToCache →
        Worker.on_fetch net' (Worker.install net st).2 (Worker.GET (Worker.resolve net u))
          = Worker.fetch net (Worker.GET (Worker.resolve net u))) ∧
  (∀ req, Worker.method req ≠ "GET" →
          Worker.on_fetch net' (Worker.install net st).2 req = Worker.fetch net' req).
Proof.
  intros Hok.
  assert (∀ u, u ∈ Worker.urlsToCache →
               ∃ r, Worker.fetch net (Worker.GET (Worker.resolve net u)) = Some r ∧
                    Worker.content_of Worker.CACHE_NAME (Worker.install net st).2
                      !! Worker.resolve net u = Some r) as Hcached.
  { intros u Hu.
    destruct (install_cases net st) as [(es & Hnd & Hes & Hrun)|[_ Hrun]];
      [|by rewrite Hrun in Hok].
    destruct (fetch_all_entries _ _ _ Hes) as [Hkeys Hall].
    destruct (Hall u Hu) as (r & Hr & _ & Hin). exists r. split; [done|].
    rewrite Hrun. cbn [snd]. rewrite content_of_set. apply lookup_union_Some_l.
    apply elem_of_list_to_map; [|done]. change (NoDup (map fst es)). by rewrite Hkeys. }
  split; [|split].
  - intros u Hu. destruct (Hcached u Hu) as (r & _ & Hr).
    unfold Worker.on_fetch.
    destruct (caches_match_content _ _ _ _ Hr) as [r' ->]. by eexists.
  - intros -> u Hu. destruct (Hcached u Hu) as (r & -> & Hr).
    unfold Worker.on_fetch.
    destruct (install_cases net []) as [(es & _ & _ & Hrun)|[_ Hrun]];
      [|by rewrite Hrun in Hok].
    rewrite Hrun in Hr |- *. cbn in Hr |- *.
    unfold Worker.cache_match. cbn. by rewrite Hr.
  - intros req Hm. unfold Worker.on_fetch. by rewrite caches_match_not_get.
Qed.

Lemma worker_serves_installed_urls_offline_witness :
  Worker.on_fetch Worker.offline (Worker.install Worker.online []).2
    (Worker.GET "./index.html") = Some Worker.page.
Proof.
  destruct (worker_serves_installed_urls_offline Worker.online Worker.offline [] eq_refl)
    as (_ & Hstale & _).
  refine (Hstale eq_refl "./index.html" _). by left.
Defined.

(* ===================================================================== *)
(** ** What reaches the store *)
(* ===================================================================== *)











(** A registration that carries a [created_at] and a [role] of its own
    sends only [username] and [phone] to the store. *)
Example registration_forwards_two_fields :
  trace (post_users Sample.env Sample.overreaching_registration Sample.start).2 =
    [InsertSelectSingle users [VObj [("username", VStr "mallory"); ("phone", VUndefined)]]].
Proof. reflexivity. Qed.
